(** * pykCSD / KCSD3D: a shallow embedding of [pykCSD/KCSD3D.py]

    The Python class [KCSD3D] is embedded method by method.

    - Floating-point numbers are idealised as exact rationals ([Qc],
      canonical fractions, so that equality is Leibniz equality); the one
      non-finite value the inspected code can produce on its own, the
      [nan] that [np.mean] returns for an empty array, is kept as an
      explicit constructor of [float64].  The basis profile
      [step_rescale], whose result turns on one comparison of floats, is
      embedded a second time on IEEE 754 binary64 numbers
      ([Float64.step_rescale]).
    - An instance of the class is its attribute dictionary: a finite map
      from attribute names to attribute values.  Reading an attribute that
      was never assigned raises [AttributeError].
    - Exceptions are values of type [exn]; a method is a function from the
      object state to a result and the new object state, so that the
      attributes assigned before an exception is raised are still there
      afterwards, as in Python.
    - [numpy.linalg.inv] and [cross_validation.cross_validation] are not
      part of the file; they are parameters of the methods that call
      them.  Where a property turns on what [cross_validation] does with
      its arguments, it is stated for [spec_cross_validation], which
      follows the specification. *)

From Stdlib Require Import QArith Qcanon Qround Qpower SpecFloat.
From stdpp Require Import base option list gmap strings numbers.

Open Scope Z_scope.
Open Scope Qc_scope.

(** ** Exceptions and the two monads *)

Inductive exn : Type :=
| Exception (msg : string)      (* [raise Exception(msg)] *)
| TypeError
| ValueError
| IndexError
| KeyError
| AttributeError
| ZeroDivisionError
| OverflowError
| LinAlgError                   (* [numpy.linalg.LinAlgError] *)
| ForeignError (cls : string).  (* an exception class of another module *)

Inductive result (A : Type) : Type :=
| Ok (a : A)
| Err (e : exn).
Arguments Ok {A} a.
Arguments Err {A} e.

Definition rbind {A B} (r : result A) (k : A -> result B) : result B :=
  match r with
  | Ok a => k a
  | Err e => Err e
  end.

(** A method running on state [St]: the state survives an exception. *)
Definition M (St A : Type) : Type := St -> result A * St.

Definition ret {St A} (a : A) : M St A := fun s => (Ok a, s).
Definition raise {St A} (e : exn) : M St A := fun s => (Err e, s).
Definition bind {St A B} (m : M St A) (k : A -> M St B) : M St B :=
  fun s => match m s with
           | (Ok a, s') => k a s'
           | (Err e, s') => (Err e, s')
           end.
Definition lift {St A} (r : result A) : M St A := fun s => (r, s).

Declare Scope py_scope.
Delimit Scope py_scope with py.
Open Scope py_scope.
Notation "x <- m ;; k" := (bind m (fun x => k))
  (at level 100, m at next level, right associativity) : py_scope.
Notation "m ;;; k" := (bind m (fun _ => k))
  (at level 100, right associativity) : py_scope.
Notation "x <~ r ;; k" := (rbind r (fun x => k))
  (at level 100, r at next level, right associativity) : py_scope.

(** ** Basis profile: [KCSD3D.step_rescale] *)

(** [s = int(xp**2 + yp**2 + zp**2 <= R**2); return s], in exact
    arithmetic: the squares and the sums are not rounded. *)
Definition step_rescale (xp yp zp R : Qc) : Z :=
  Z.b2z (bool_decide (xp ^ 2 + yp ^ 2 + zp ^ 2 <= R ^ 2)).

(** The same function on the numbers Python computes with: IEEE 754
    binary64, as [SpecFloat] specifies it (53 bits of precision, exponents
    below 1024, every operation rounded to nearest, ties to even). *)
Module Float64.

Local Open Scope Z_scope.

Definition prec : Z := 53.
Definition emax : Z := 1024.


Definition fmul : spec_float -> spec_float -> spec_float := SFmul prec emax.
Definition fadd : spec_float -> spec_float -> spec_float := SFadd prec emax.

(** [x ** 2] on a float: the square, rounded; Python raises
    [OverflowError] when the square of a finite [x] is out of range
    (a numpy float64 yields [inf] and a warning there). *)
Definition py_pow2 (x : spec_float) : result spec_float :=
  match x, fmul x x with
  | S754_finite _ _ _, S754_infinity _ => Err OverflowError
  | _, r => Ok r
  end.

(** [s = int(xp**2 + yp**2 + zp**2 <= R**2); return s]; a comparison
    with [nan] is false. *)
Definition step_rescale (xp yp zp R : spec_float) : result Z :=
  x2 <~ py_pow2 xp ;;
  y2 <~ py_pow2 yp ;;
  z2 <~ py_pow2 zp ;;
  R2 <~ py_pow2 R ;;
  Ok (Z.b2z (SFleb (fadd (fadd x2 y2) z2) R2)).






End Float64.

(** ** Python scalars

    The values a [params] dictionary holds and the scalar attributes of
    an instance: [None], [int], [float] and [str]. *)

Inductive pyval : Type :=
| PNone
| PInt (z : Z)
| PFloat (q : Qc)
| PStr (s : string).

#[global] Instance pyval_eq_dec : EqDecision pyval.
Proof. solve_decision. Defined.

Definition Z2Qc (z : Z) : Qc := Q2Qc (inject_Z z).

Fixpoint str_repeat (n : nat) (s : string) : string :=
  match n with
  | O => EmptyString
  | S k => String.append s (str_repeat k s)
  end.

(** [a - b] *)
Definition py_sub (a b : pyval) : result pyval :=
  match a, b with
  | PInt x, PInt y => Ok (PInt (x - y))
  | PInt x, PFloat y => Ok (PFloat (Z2Qc x - y))
  | PFloat x, PInt y => Ok (PFloat (x - Z2Qc y))
  | PFloat x, PFloat y => Ok (PFloat (x - y))
  | _, _ => Err TypeError
  end.

(** [a + b] *)
Definition py_add (a b : pyval) : result pyval :=
  match a, b with
  | PInt x, PInt y => Ok (PInt (x + y))
  | PInt x, PFloat y => Ok (PFloat (Z2Qc x + y))
  | PFloat x, PInt y => Ok (PFloat (x + Z2Qc y))
  | PFloat x, PFloat y => Ok (PFloat (x + y))
  | PStr x, PStr y => Ok (PStr (String.append x y))
  | _, _ => Err TypeError
  end.

(** [a * b]; an [int] times a [str] repeats the string. *)
Definition py_mul (a b : pyval) : result pyval :=
  match a, b with
  | PInt x, PInt y => Ok (PInt (x * y))
  | PInt x, PFloat y => Ok (PFloat (Z2Qc x * y))
  | PFloat x, PInt y => Ok (PFloat (x * Z2Qc y))
  | PFloat x, PFloat y => Ok (PFloat (x * y))
  | PInt x, PStr s | PStr s, PInt x => Ok (PStr (str_repeat (Z.to_nat x) s))
  | _, _ => Err TypeError
  end.

(** [a / b] of Python 2: floor division on two [int]s, true division as
    soon as one operand is a [float].  A zero divisor raises.  (On numpy
    scalars the quotient would be [inf] or [nan] instead, which the
    [int(num)] of [linspace] then rejects: an exception either way.) *)
Definition py_div (a b : pyval) : result pyval :=
  match a, b with
  | PInt x, PInt y =>
      if decide (y = 0%Z) then Err ZeroDivisionError else Ok (PInt (x / y))
  | PInt x, PFloat y =>
      if decide (y = 0) then Err ZeroDivisionError else Ok (PFloat (Z2Qc x / y))
  | PFloat x, PInt y =>
      if decide (y = 0%Z) then Err ZeroDivisionError else Ok (PFloat (x / Z2Qc y))
  | PFloat x, PFloat y =>
      if decide (y = 0) then Err ZeroDivisionError else Ok (PFloat (x / y))
  | _, _ => Err TypeError
  end.

(** A Python number where numpy arithmetic needs a float; anything else
    is rejected. *)
Definition py_float (v : pyval) : result Qc :=
  match v with
  | PInt z => Ok (Z2Qc z)
  | PFloat q => Ok q
  | _ => Err TypeError
  end.

(** Truncation toward zero, as [int(x)] does on a float. *)
Definition Qc_trunc (q : Qc) : Z := Z.quot (Qnum q) (Zpos (Qden q)).

(** [int(v)] *)
Definition py_int (v : pyval) : result Z :=
  match v with
  | PInt z => Ok z
  | PFloat q => Ok (Qc_trunc q)
  | PStr _ => Err ValueError
  | PNone => Err TypeError
  end.

(** [params.get(key, default)]: the default is an already evaluated
    argument. *)
Definition dict_get (params : gmap string pyval) (key : string) (default : pyval)
  : pyval :=
  match params !! key with
  | Some v => v
  | None => default
  end.

(** ** numpy arrays

    A vector is a 1-D array, a matrix a 2-D array stored as the list of
    its rows; [ndarray] carries an explicit shape over row-major data and
    is used for the grid fields and the reshaped outputs (a matrix
    without rows has no recorded number of columns).  [float64] adds the
    [nan] of [np.mean] to the finite values. *)

Abbreviation vec := (list Qc).
Abbreviation matrix := (list (list Qc)).

Record ndarray : Type := mk_ndarray { shape : list nat; data : list Qc }.

Inductive float64 : Type :=
| Fin (q : Qc)
| NaN.

(** One electrode position, a row [(x, y, z)] of the N x 3 array
    [elec_pos]. *)
Record pos3 : Type := mk_pos3 { px : Qc; py : Qc; pz : Qc }.

Fixpoint rsequence {A} (l : list (result A)) : result (list A) :=
  match l with
  | [] => Ok []
  | r :: rs =>
      match r with
      | Err e => Err e
      | Ok a => match rsequence rs with
                | Err e => Err e
                | Ok l' => Ok (a :: l')
                end
      end
  end.

(** Pairing two axes under numpy's broadcasting rule: equal lengths pair
    up, a length-1 axis is stretched, anything else is a [ValueError]. *)
Definition bzip {A B C} (f : A -> B -> result C) (l1 : list A) (l2 : list B)
  : result (list C) :=
  if decide (length l1 = length l2) then rsequence (zip_with f l1 l2)
  else match l1, l2 with
       | [a], _ => rsequence (map (f a) l2)
       | _, [b] => rsequence (map (fun a => f a b) l1)
       | _, _ => Err ValueError
       end.

(** [np.zeros(n)] *)
Definition np_zeros (n : Z) : result vec :=
  if decide (n < 0)%Z then Err ValueError else Ok (replicate (Z.to_nat n) 0).

(** [identity(n)] *)
Definition identity (n : nat) : matrix :=
  map (fun i => map (fun j => if decide (i = j) then 1 else 0) (seq 0 n)) (seq 0 n).

(** [c * A] for a scalar [c] *)
Definition np_scale_mat (c : Qc) (A : matrix) : matrix :=
  map (map (Qcmult c)) A.

(** [c * v] for a scalar [c] *)
Definition np_scale (c : Qc) (v : vec) : vec := map (Qcmult c) v.

(** [A + B] on 2-D arrays *)
Definition np_add_mat (A B : matrix) : result matrix :=
  bzip (bzip (fun a b => Ok (a + b))) A B.

(** [transpose(A)] *)
Definition transpose (A : matrix) : matrix :=
  match A with
  | [] => []
  | r :: _ => map (fun j => map (fun row => nth j row 0) A) (seq 0 (length r))
  end.

(** Inner product of two equally long vectors. *)
Definition dotp (u v : vec) : Qc :=
  foldr Qcplus 0 (zip_with Qcmult u v).

(** [dot(A, v)], 2-D by 1-D *)
Definition np_dot_mv (A : matrix) (v : vec) : result vec :=
  if decide (Forall (fun row => length row = length v) A)
  then Ok (map (fun row => dotp row v) A)
  else Err ValueError.

(** [dot(A, B)], 2-D by 2-D *)
Definition np_dot_mm (A B : matrix) : result matrix :=
  if decide (Forall (fun row => length row = length B) A)
  then Ok (map (fun row => map (fun col => dotp row col) (transpose B)) A)
  else Err ValueError.

(** [A[:, i]] *)
Definition np_col (A : matrix) (i : nat) : result vec :=
  if decide (Forall (fun row => i < length row)%nat A)
  then Ok (map (fun row => nth i row 0) A)
  else Err IndexError.

(** [v[i]] *)
Definition np_item (v : vec) (i : nat) : result Qc :=
  match v !! i with
  | Some x => Ok x
  | None => Err IndexError
  end.

(** [out[:] += v]: [v] must have the length of [out] or length 1. *)
Definition np_iadd (out v : vec) : result vec :=
  if decide (length v = length out) then Ok (zip_with Qcplus out v)
  else match v with
       | [x] => Ok (map (fun o => o + x) out)
       | _ => Err ValueError
       end.

(** [v.reshape(dims)] *)
Definition np_reshape (v : vec) (dims : list nat) : result ndarray :=
  if decide (length v = foldr Nat.mul 1%nat dims)
  then Ok (mk_ndarray dims v)
  else Err ValueError.

(** [nx, ny, nz = a.shape] *)
Definition unpack3 (s : list nat) : result (nat * nat * nat) :=
  match s with
  | [a; b; c] => Ok (a, b, c)
  | _ => Err ValueError
  end.

Definition Qc_max (x y : Qc) : Qc := if decide (x <= y) then y else x.
Definition Qc_min (x y : Qc) : Qc := if decide (y <= x) then y else x.

(** [np.max(v)] and [np.min(v)]: an empty array is a [ValueError]. *)
Definition np_max (v : vec) : result Qc :=
  match v with
  | [] => Err ValueError
  | x :: xs => Ok (foldl Qc_max x xs)
  end.

Definition np_min (v : vec) : result Qc :=
  match v with
  | [] => Err ValueError
  | x :: xs => Ok (foldl Qc_min x xs)
  end.

(** [np.linspace(start, stop, num)] once [num] is an [int]: no point for
    [num <= 0], the start alone for [num = 1], otherwise [num] points
    [start + i*step] whose last one is overwritten by [stop]. *)
Definition linspace (start stop : Qc) (num : Z) : vec :=
  if decide (num <= 0)%Z then []
  else if decide (num = 1)%Z then [start]
  else
    let step := (stop - start) / Z2Qc (num - 1) in
    let y := map (fun i => Z2Qc (Z.of_nat i) * step + start) (seq 0 (Z.to_nat num)) in
    <[(Z.to_nat num - 1)%nat := stop]> y.

Definition np_linspace (start stop num : pyval) : result vec :=
  n <~ py_int num ;;
  a <~ py_float start ;;
  b <~ py_float stop ;;
  Ok (linspace a b n).

(** [np.meshgrid(lin_x, lin_y, lin_z)] with the default ['xy'] indexing:
    three arrays of shape [(len(lin_y), len(lin_x), len(lin_z))] with
    [X[i,j,k] = lin_x[j]], [Y[i,j,k] = lin_y[i]], [Z[i,j,k] = lin_z[k]]. *)
Definition meshgrid (lin_x lin_y lin_z : vec) : ndarray * ndarray * ndarray :=
  let sh := [length lin_y; length lin_x; length lin_z] in
  (mk_ndarray sh
     (flat_map (fun _ => flat_map (fun x => map (fun _ => x) lin_z) lin_x) lin_y),
   mk_ndarray sh
     (flat_map (fun y => flat_map (fun _ => map (fun _ => y) lin_z) lin_x) lin_y),
   mk_ndarray sh
     (flat_map (fun _ => flat_map (fun _ => lin_z) lin_x) lin_y)).

(** [np.mean(v)]: [nan] for an empty array. *)
Definition np_mean (v : vec) : float64 :=
  match v with
  | [] => NaN
  | _ => Fin (foldr Qcplus 0 v / Z2Qc (Z.of_nat (length v)))
  end.

(** [a[i] = x] *)
Definition np_setitem {A} (a : list A) (i : nat) (x : A) : result (list A) :=
  if decide (i < length a)%nat then Ok (<[i := x]> a) else Err IndexError.

(** Comparisons of floats: every comparison with [nan] is false. *)
Definition f64_ltb (a b : float64) : bool :=
  match a, b with
  | Fin x, Fin y => bool_decide (x < y)
  | _, _ => false
  end.

Definition f64_eqb (a b : float64) : bool :=
  match a, b with
  | Fin x, Fin y => bool_decide (x = y)
  | _, _ => false
  end.

(** The builtin [min(iterable)]: the first element is kept until a
    strictly smaller one is met. *)
Definition py_min (l : list float64) : result float64 :=
  match l with
  | [] => Err ValueError
  | x :: xs => Ok (foldl (fun m y => if f64_ltb y m then y else m) x xs)
  end.

(** [a[mask]] for a boolean mask *)
Fixpoint np_mask {A} (a : list A) (mask : list bool) : list A :=
  match a, mask with
  | x :: a', b :: mask' => if b then x :: np_mask a' mask' else np_mask a' mask'
  | _, _ => []
  end.

(** ** The instance: an attribute dictionary *)

Inductive attr : Type :=
| AVal (v : pyval)
| APos (p : list pos3)
| AVec (v : vec)
| AMat (m : matrix)
| ANd (a : ndarray).

Abbreviation obj := (gmap string attr).

Definition getattr (name : string) : M obj attr :=
  fun self => match self !! name with
              | Some a => (Ok a, self)
              | None => (Err AttributeError, self)
              end.

Definition setattr (name : string) (a : attr) : M obj unit :=
  fun self => (Ok tt, <[name := a]> self).

(** Reading an attribute at the kind the code uses it at. *)
Definition as_val (a : attr) : result pyval :=
  match a with AVal v => Ok v | _ => Err TypeError end.
Definition as_pos (a : attr) : result (list pos3) :=
  match a with APos p => Ok p | _ => Err TypeError end.
Definition as_vec (a : attr) : result vec :=
  match a with AVec v => Ok v | _ => Err TypeError end.
Definition as_mat (a : attr) : result matrix :=
  match a with AMat m => Ok m | _ => Err TypeError end.
Definition as_nd (a : attr) : result ndarray :=
  match a with ANd a => Ok a | _ => Err TypeError end.

Definition getval (name : string) : M obj pyval :=
  (a <- getattr name ;; lift (as_val a)).
Definition getvec (name : string) : M obj vec :=
  (a <- getattr name ;; lift (as_vec a)).
Definition getmat (name : string) : M obj matrix :=
  (a <- getattr name ;; lift (as_mat a)).
Definition getnd (name : string) : M obj ndarray :=
  (a <- getattr name ;; lift (as_nd a)).
Definition getfloat (name : string) : M obj Qc :=
  (v <- getval name ;; lift (py_float v)).

(** [a.shape[0]] *)
Definition shape0 (a : attr) : result nat :=
  match a with
  | AVal _ => Err AttributeError
  | APos p => Ok (length p)
  | AVec v => Ok (length v)
  | AMat m => Ok (length m)
  | ANd a => match shape a with
             | n :: _ => Ok n
             | [] => Err IndexError
             end
  end.

(** ** Construction *)

(** [KCSD3D.validate_parameters] *)
Definition validate_parameters (elec_pos : list pos3) (sampled_pots : vec)
  : result unit :=
  if decide (length elec_pos <> length sampled_pots)
  then Err (Exception "Number of measured potentials is not equal to electrode number!")
  else if decide (length elec_pos < 4)%nat
  then Err (Exception "Number of electrodes must be at least 4!")
  else Ok tt.

(** [KCSD3D.calc_min_dist]: the body is [pass]. *)
Definition calc_min_dist (elec_pos : attr) : pyval := PNone.

(** [KCSD3D.make_src_3D]: the body is [pass]. *)
Definition make_src_3D (X Y Z : attr) (n_src ext_x ext_y ext_z R_init : attr)
  : pyval := PNone.

(** Unpacking a value into seven targets: [None] and numbers are not
    iterable, a string is iterated character by character. *)
Definition py_unpack7 (v : pyval) : result (list pyval) :=
  match v with
  | PStr s =>
      if decide (String.length s = 7%nat)
      then Ok (map (fun c => PStr (String c EmptyString)) (String.list_ascii_of_string s))
      else Err ValueError
  | _ => Err TypeError
  end.

(** [np.max(self.elec_pos[:,c])] and [np.min(self.elec_pos[:,c])] *)
Definition elec_max (coord : pos3 -> Qc) : M obj pyval :=
  (a <- getattr "elec_pos" ;;
   p <- lift (as_pos a) ;;
   m <- lift (np_max (map coord p)) ;;
   ret (PFloat m)).

Definition elec_min (coord : pos3 -> Qc) : M obj pyval :=
  (a <- getattr "elec_pos" ;;
   p <- lift (as_pos a) ;;
   m <- lift (np_min (map coord p)) ;;
   ret (PFloat m)).

(** The default spacing [0.01*(self.max - self.min)] of one axis. *)
Definition default_spacing (amax amin : string) : M obj pyval :=
  (hi <- getval amax ;;
   lo <- getval amin ;;
   d <- lift (py_sub hi lo) ;;
   lift (py_mul (PFloat (Q2Qc (1 # 100))) d)).

(** [np.linspace(self.lo, self.hi, (self.emax - self.emin)/self.gd + 1)]:
    the axis runs from [lo] to [hi], the number of points is taken from
    the extent [emax - emin].  The quotient is exact here; in floating
    point it is rounded before [linspace] truncates it, so that the
    count can differ by one from the count of this definition where the
    exact quotient is a whole number.  The first and the last point do
    not depend on the count. *)
Definition grid_axis (lo hi emax emin gd : string) : M obj vec :=
  (start <- getval lo ;;
   stop <- getval hi ;;
   e1 <- getval emax ;;
   e0 <- getval emin ;;
   ext <- lift (py_sub e1 e0) ;;
   g <- getval gd ;;
   q <- lift (py_div ext g) ;;
   num <- lift (py_add q (PInt 1)) ;;
   lift (np_linspace start stop num)).

(** Lines 76 to 78, as written. *)
Definition lin_x_axis : M obj vec := grid_axis "xmin" "xmax" "xmax" "xmin" "gdX".
Definition lin_y_axis : M obj vec := grid_axis "ymin" "ymax" "ymax" "ymin" "gdY".
Definition lin_z_axis : M obj vec := grid_axis "zmin" "ymax" "zmax" "zmin" "gdZ".

(** Lines 76 to 79: the estimation grid. *)
Definition build_grid : M obj unit :=
  lin_x <- lin_x_axis ;;
  lin_y <- lin_y_axis ;;
  lin_z <- lin_z_axis ;;
  let '(X, Y, Z) := meshgrid lin_x lin_y lin_z in
  setattr "space_X" (ANd X) ;;;
  setattr "space_Y" (ANd Y) ;;;
  setattr "space_Z" (ANd Z).

(** [self.lambdas = np.array([1.0 / 2**n for n in xrange(0, 20)])] *)
Definition default_lambdas : vec :=
  map (fun n => 1 / Z2Qc (2 ^ Z.of_nat n)) (seq 0 20).

(** [KCSD3D.set_parameters], lines 45 to 82.  Lines 84 to 87 are not
    embedded: the unpacking of line 81 raises for the value that
    [make_src_3D] returns. *)
Definition set_parameters (params : gmap string pyval) : M obj unit :=
  (setattr "sigma" (AVal (dict_get params "sigma" (PFloat 1))) ;;;
   setattr "n_sources" (AVal (dict_get params "n_sources" (PInt 300))) ;;;
   d <- elec_max px ;; setattr "xmax" (AVal (dict_get params "x_max" d)) ;;;
   d <- elec_min px ;; setattr "xmin" (AVal (dict_get params "x_min" d)) ;;;
   d <- elec_max py ;; setattr "ymax" (AVal (dict_get params "y_max" d)) ;;;
   d <- elec_min py ;; setattr "ymin" (AVal (dict_get params "y_min" d)) ;;;
   d <- elec_max pz ;; setattr "zmax" (AVal (dict_get params "z_max" d)) ;;;
   d <- elec_min pz ;; setattr "zmin" (AVal (dict_get params "z_min" d)) ;;;

   setattr "lambd" (AVal (dict_get params "lambda" (PFloat 0))) ;;;
   ep <- getattr "elec_pos" ;;
   d <- lift (py_mul (PInt 2) (calc_min_dist ep)) ;;
   setattr "R_init" (AVal (dict_get params "R_init" d)) ;;;
   setattr "h" (AVal (dict_get params "h" (PFloat 1))) ;;;
   setattr "ext_X" (AVal (dict_get params "ext_X" (PFloat 0))) ;;;
   setattr "ext_Y" (AVal (dict_get params "ext_Y" (PFloat 0))) ;;;
   setattr "ext_Z" (AVal (dict_get params "ext_Z" (PFloat 0))) ;;;

   d <- default_spacing "xmax" "xmin" ;;
   setattr "gdX" (AVal (dict_get params "gdX" d)) ;;;
   d <- default_spacing "ymax" "ymin" ;;
   setattr "gdY" (AVal (dict_get params "gdY" d)) ;;;
   d <- default_spacing "zmax" "zmin" ;;
   setattr "gdZ" (AVal (dict_get params "gdZ" d)) ;;;
   setattr "_KCSD3D__dist_table_density" (AVal (PInt 100)) ;;;

   match params !! "source_type" with
   | Some v =>
       if decide (v = PStr "gaussian" \/ v = PStr "step")
       then setattr "source_type" (AVal v)
       else raise (Exception "Incorrect source type!")
   | None => setattr "source_type" (AVal (PStr "gaussian"))
   end ;;;

   setattr "lambdas" (AVec default_lambdas) ;;;

   build_grid ;;;

   sx <- getattr "space_X" ;; sy <- getattr "space_Y" ;; sz <- getattr "space_Z" ;;
   ns <- getattr "n_sources" ;;
   ex <- getattr "ext_X" ;; ey <- getattr "ext_Y" ;; ez <- getattr "ext_Z" ;;
   ri <- getattr "R_init" ;;
   srcs <- lift (py_unpack7 (make_src_3D sx sy sz ns ex ey ez ri)) ;;
   match srcs with
   | [X_src; Y_src; Z_src; _; _; _; R] =>
       setattr "X_src" (AVal X_src) ;;;
       setattr "Y_src" (AVal Y_src) ;;;
       setattr "Z_src" (AVal Z_src) ;;;
       setattr "R" (AVal R)
   | _ => raise ValueError
   end).

(** [KCSD3D.__init__], run on the fresh instance. *)
Definition __init__ (elec_pos : list pos3) (sampled_pots : vec)
  (params : gmap string pyval) : M obj unit :=
  (lift (validate_parameters elec_pos sampled_pots) ;;;
   setattr "elec_pos" (APos elec_pos) ;;;
   setattr "sampled_pots" (AVec sampled_pots) ;;;
   set_parameters params).

(** ** Kernel matrices: [KCSD3D.calculate_matrices] *)

(** The table and matrix builders are stubs ([pass]): they return
    without assigning anything. *)
Definition create_dist_table : M obj unit := ret tt.
Definition calculate_b_pot_matrix_3D : M obj unit := ret tt.
Definition calculate_b_pot_matrix : M obj unit := calculate_b_pot_matrix_3D.
Definition make_b_src_matrix_3D : M obj unit := ret tt.
Definition calculate_b_src_matrix : M obj unit := make_b_src_matrix_3D.
Definition make_b_interp_pot_matrix_3D : M obj unit := ret tt.
Definition calculate_b_interp_pot_matrix : M obj unit := make_b_interp_pot_matrix_3D.

Definition calculate_matrices : M obj unit :=
  create_dist_table ;;;

  calculate_b_pot_matrix ;;;
  b <- getmat "b_pot_matrix" ;;
  b' <- getmat "b_pot_matrix" ;;
  k <- lift (np_dot_mm (transpose b) b') ;;
  setattr "k_pot" (AMat k) ;;;

  calculate_b_src_matrix ;;;
  bs <- getmat "b_src_matrix" ;;
  b <- getmat "b_pot_matrix" ;;
  k <- lift (np_dot_mm bs b) ;;
  setattr "k_interp_cross" (AMat k) ;;;

  calculate_b_interp_pot_matrix ;;;
  bi <- getmat "b_interp_pot_matrix" ;;
  b <- getmat "b_pot_matrix" ;;
  k <- lift (np_dot_mm bi b) ;;
  setattr "interp_pot" (AMat k).

(** ** Estimation: [KCSD3D.estimate_pots] and [KCSD3D.estimate_csd] *)

(** A [for] loop over a list of indices with an accumulator. *)
Fixpoint for_each {A} (body : nat -> A -> result A) (idx : list nat) (acc : A)
  : result A :=
  match idx with
  | [] => Ok acc
  | i :: rest => acc' <~ body i acc ;; for_each body rest acc'
  end.

(** [output[:] += beta[i]*estimation_table[:,i]] *)
Definition accumulate (beta : vec) (estimation_table : matrix)
  (i : nat) (output : vec) : result vec :=
  b <~ np_item beta i ;;
  col <~ np_col estimation_table i ;;
  np_iadd output (np_scale b col).

Section Estimation.

(** [numpy.linalg.inv]; it raises [LinAlgError] on a singular or
    non-square argument. *)
Variable np_linalg_inv : matrix -> result matrix.

(** Lines 93 and 94:
    [k_inv = np.linalg.inv(self.k_pot + self.lambd * identity(self.k_pot.shape[0]))],
    [beta = dot(k_inv, self.sampled_pots)]. *)
Definition estimate_pots_beta : M obj vec :=
  k_pot <- getmat "k_pot" ;;
  lambd <- getfloat "lambd" ;;
  k_pot' <- getattr "k_pot" ;;
  n <- lift (shape0 k_pot') ;;
  reg <- lift (np_add_mat k_pot (np_scale_mat lambd (identity n))) ;;
  k_inv <- lift (np_linalg_inv reg) ;;
  sampled_pots <- getvec "sampled_pots" ;;
  lift (np_dot_mv k_inv sampled_pots).

(** Lines 109 and 110, the same two statements. *)
Definition estimate_csd_beta : M obj vec :=
  k_pot <- getmat "k_pot" ;;
  lambd <- getfloat "lambd" ;;
  k_pot' <- getattr "k_pot" ;;
  n <- lift (shape0 k_pot') ;;
  reg <- lift (np_add_mat k_pot (np_scale_mat lambd (identity n))) ;;
  k_inv <- lift (np_linalg_inv reg) ;;
  sampled_pots <- getvec "sampled_pots" ;;
  lift (np_dot_mv k_inv sampled_pots).

Definition estimate_pots : M obj ndarray :=
  estimation_table <- getmat "interp_pot" ;;
  beta <- estimate_pots_beta ;;
  space_X <- getnd "space_X" ;;
  dims <- lift (unpack3 (shape space_X)) ;;
  let '(nx, ny, nz) := dims in
  output <- lift (np_zeros (Z.of_nat (nx * ny))) ;;
  elec_pos <- getattr "elec_pos" ;;
  n <- lift (shape0 elec_pos) ;;
  output <- lift (for_each (accumulate beta estimation_table) (seq 0 n) output) ;;
  r <- lift (np_reshape output [nx; ny]) ;;
  setattr "estimated_pots" (ANd r) ;;;
  a <- getnd "estimated_pots" ;;
  ret a.

Definition estimate_csd : M obj ndarray :=
  estimation_table <- getmat "k_interp_cross" ;;
  beta <- estimate_csd_beta ;;
  space_X <- getnd "space_X" ;;
  dims <- lift (unpack3 (shape space_X)) ;;
  let '(nx, ny, nz) := dims in
  output <- lift (np_zeros (Z.of_nat (nx * ny))) ;;
  elec_pos <- getattr "elec_pos" ;;
  n <- lift (shape0 elec_pos) ;;
  output <- lift (for_each (accumulate beta estimation_table) (seq 0 n) output) ;;
  r <- lift (np_reshape output [nx; ny; nz]) ;;
  setattr "estimated_csd" (ANd r) ;;;
  a <- getnd "estimated_csd" ;;
  ret a.

End Estimation.

(** ** Cross-validation: [KCSD3D.choose_lambda] *)

(** What one call of [cv.cross_validation(lambd, pots, k_pot, n, n_folds)]
    leaves behind: its result (a float, or an exception), the state of
    everything outside the instance that it may use (a random generator,
    say), and the two arrays it was handed by reference. *)
Record cv_outcome (Env : Type) : Type := mk_cv_outcome {
  cv_value : result Qc;
  cv_env : Env;
  cv_pots : attr;
  cv_k_pot : attr
}.
Arguments mk_cv_outcome {Env}.
Arguments cv_value {Env}.
Arguments cv_env {Env}.
Arguments cv_pots {Env}.
Arguments cv_k_pot {Env}.

Section CrossValidation.

Variable Env : Type.

(** [cross_validation.cross_validation], a module that is not in the
    file. *)
Variable cross_validation : Env -> Qc -> attr -> attr -> nat -> Z -> cv_outcome Env.

(** Running a method of the instance next to the outside state. *)
Definition on_self {A} (m : M obj A) : M (Env * obj) A :=
  fun '(env, self) => let '(r, self') := m self in (r, (env, self')).

(** [cv.cross_validation(lambd, self.sampled_pots, self.k_pot,
    self.elec_pos.shape[0], n_folds)] *)
Definition cv_call (lambd : Qc) (n_folds : Z) : M (Env * obj) Qc :=
  pots <- on_self (getattr "sampled_pots") ;;
  k_pot <- on_self (getattr "k_pot") ;;
  elec_pos <- on_self (getattr "elec_pos") ;;
  n <- lift (shape0 elec_pos) ;;
  fun '(env, self) =>
    let out := cross_validation env lambd pots k_pot n n_folds in
    (cv_value out,
     (cv_env out, <["k_pot" := cv_k_pot out]> (<["sampled_pots" := cv_pots out]> self))).

(** [for j in xrange(n_iter): errors_iter[j] = cv.cross_validation(...)] *)
Fixpoint iterations (lambd : Qc) (n_folds : Z) (js : list nat) (errors_iter : vec)
  : M (Env * obj) vec :=
  match js with
  | [] => ret errors_iter
  | j :: js' =>
      e <- cv_call lambd n_folds ;;
      errors_iter' <- lift (np_setitem errors_iter j e) ;;
      iterations lambd n_folds js' errors_iter'
  end.

(** [for i, lambd in enumerate(lambdas): ...; errors[i] = np.mean(errors_iter)] *)
Fixpoint candidates (cands : list (nat * Qc)) (n_folds n_iter : Z)
  (errors_iter : vec) (errors : list float64) : M (Env * obj) (list float64) :=
  match cands with
  | [] => ret errors
  | (i, lambd) :: rest =>
      errors_iter' <- iterations lambd n_folds (seq 0 (Z.to_nat n_iter)) errors_iter ;;
      errors' <- lift (np_setitem errors i (np_mean errors_iter')) ;;
      candidates rest n_folds n_iter errors_iter' errors'
  end.

(** Lines 309 to 316: the vector [errors]. *)
Definition choose_lambda_errors (lambdas : vec) (n_folds n_iter : Z)
  : M (Env * obj) (list float64) :=
  let n := length lambdas in
  let errors := replicate n (Fin 0) in
  errors_iter <- lift (np_zeros n_iter) ;;
  candidates (zip (seq 0 n) lambdas) n_folds n_iter errors_iter errors.

(** Line 317: [lambdas[errors == min(errors)][0]] *)
Definition select_lambda (lambdas : vec) (errors : list float64) : result Qc :=
  m <~ py_min errors ;;
  np_item (np_mask lambdas (map (fun e => f64_eqb e m) errors)) 0.

Definition choose_lambda (lambdas : vec) (n_folds n_iter : Z) : M (Env * obj) Qc :=
  errors <- choose_lambda_errors lambdas n_folds n_iter ;;
  lift (select_lambda lambdas errors).

End CrossValidation.

(** ** Instances of the two parameters, to run the methods *)

(** An exact inverse by Gauss-Jordan elimination on [A | I]. *)
Definition row_elim (c : Qc) (p r : vec) : vec :=
  zip_with (fun a b => b - c * a) p r.

Fixpoint find_pivot (c : nat) (rows : matrix) : option (vec * matrix) :=
  match rows with
  | [] => None
  | r :: rest =>
      if decide (nth c r 0 = 0)
      then match find_pivot c rest with
           | Some (p, others) => Some (p, r :: others)
           | None => None
           end
      else Some (r, rest)
  end.

Fixpoint gauss_jordan (cols : list nat) (reduced todo : matrix) : option matrix :=
  match cols with
  | [] => Some reduced
  | c :: cs =>
      match find_pivot c todo with
      | None => None
      | Some (p, rest) =>
          let p' := np_scale (/ nth c p 0) p in
          let elim r := row_elim (nth c r 0) p' r in
          gauss_jordan cs (map elim reduced ++ [p']) (map elim rest)
      end
  end.

Definition inv_exact (A : matrix) : result matrix :=
  let n := length A in
  if decide (Forall (fun r => length r = n) A)
  then match gauss_jordan (seq 0 n) [] (zip_with app A (identity n)) with
       | Some R => Ok (map (drop n) R)
       | None => Err LinAlgError
       end
  else Err LinAlgError.

(** A cross-validation that rejects a fold count out of range, counts
    its calls in the outside state, leaves the arrays alone and reports
    the error [(lambd - 1/4)^2]. *)
Definition cv_sample (calls : nat) (lambd : Qc) (pots k_pot : attr) (n : nat)
  (n_folds : Z) : cv_outcome nat :=
  mk_cv_outcome
    (if decide (n_folds < 1 \/ Z.of_nat n < n_folds)%Z
     then Err (ForeignError "InvalidFoldCountError")
     else Ok ((lambd - Q2Qc (1 # 4)) ^ 2))
    (S calls) pots k_pot.

Definition zs (l : list Z) : vec := map Z2Qc l.

(** Reading results back: the fractions of a vector, and a map over a
    result. *)
Definition fractions (v : vec) : list Q := map this v.

Definition result_map {A B} (f : A -> B) (r : result A) : result B :=
  match r with
  | Ok a => Ok (f a)
  | Err e => Err e
  end.

(** Candidates in strictly descending order. *)
Definition descending (l : vec) : Prop :=
  forall i k a b, (i < k)%nat -> l !! i = Some a -> l !! k = Some b -> b < a.

Fixpoint descendingb (l : vec) : bool :=
  match l with
  | a :: (b :: _) as t => bool_decide (b < a) && descendingb t
  | _ => true
  end.

(** Four electrodes, their potentials, and an instance whose attributes
    were assigned by hand: identity kernel, [lambd = 0], a 2 x 2 x 2 grid
    and interpolation tables with one row per grid point. *)
Definition sample_electrodes : list pos3 :=
  [mk_pos3 0 0 0; mk_pos3 1 0 0; mk_pos3 0 1 0; mk_pos3 0 0 2].

Definition sample_pots : vec := zs [1; 2; 3; 4]%Z.

Definition sample_instance (table_rows : nat) : obj :=
  <["k_pot" := AMat (identity 4)]>
  (<["lambd" := AVal (PFloat 0)]>
  (<["sampled_pots" := AVec sample_pots]>
  (<["elec_pos" := APos sample_electrodes]>
  (<["space_X" := ANd (mk_ndarray [2; 2; 2]%nat (replicate 8 0))]>
  (<["interp_pot" := AMat (replicate table_rows (zs [1; 1; 1; 1]%Z))]>
  (<["k_interp_cross" := AMat (replicate table_rows (zs [1; 1; 1; 1]%Z))]> ∅)))))).

(** The attributes lines 47 to 63 leave for [sample_electrodes] when
    [params] sets the three spacings to 1/2. *)
Definition sample_bounds : obj :=
  <["xmax" := AVal (PFloat 1)]> (<["xmin" := AVal (PFloat 0)]>
  (<["ymax" := AVal (PFloat 1)]> (<["ymin" := AVal (PFloat 0)]>
  (<["zmax" := AVal (PFloat 2)]> (<["zmin" := AVal (PFloat 0)]>
  (<["gdX" := AVal (PFloat (Q2Qc (1 # 2)))]>
  (<["gdY" := AVal (PFloat (Q2Qc (1 # 2)))]>
  (<["gdZ" := AVal (PFloat (Q2Qc (1 # 2)))]> ∅)))))))).

(** ** The formulas of the specification *)

Definition sum_to (n : nat) (f : nat -> Qc) : Qc :=
  foldr (fun j acc => f j + acc) 0 (seq 0 n).

(** [K + lam * I], entry by entry: [lam] is added on the diagonal. *)
Definition spec_regularized (K : matrix) (lam : Qc) : matrix :=
  imap (fun i row => imap (fun j x => if decide (i = j) then x + lam else x) row) K.

(** [(A y)_i = sum_j A_ij y_j] *)
Definition spec_mat_vec (n : nat) (A : matrix) (y : vec) : vec :=
  map (fun row => sum_to n (fun j => nth j row 0 * nth j y 0)) A.

(** [solve(lam)]: form [K + lam I], invert it, apply the inverse to the
    sampled potentials. *)
Definition spec_solve (inv : matrix -> result matrix) (K : matrix) (lam : Qc)
  (y : vec) : result vec :=
  match inv (spec_regularized K lam) with
  | Ok K_inv => Ok (spec_mat_vec (length K) K_inv y)
  | Err e => Err e
  end.

(** The entry [K[i,j]] of a matrix, when there is one. *)
Definition entry (K : matrix) (i j : nat) : option Qc :=
  match K !! i with
  | Some row => row !! j
  | None => None
  end.

(** The specification's [ValidationError]: the two exceptions
    [validate_parameters] raises. *)
Definition ValidationError (e : exn) : Prop :=
  e = Exception "Number of measured potentials is not equal to electrode number!"
  \/ e = Exception "Number of electrodes must be at least 4!".

(** The specification's [InvalidFoldCountError]; no such class is defined
    or raised in the file, it can only come from [cross_validation]. *)
Definition InvalidFoldCountError : exn := ForeignError "InvalidFoldCountError".


Section MeanErrors.

Variable Env : Type.
Variable cross_validation : Env -> Qc -> attr -> attr -> nat -> Z -> cv_outcome Env.






(** The instance once the two arrays read as a call left them. *)
Definition with_arrays (self : obj) (st : Env * (attr * attr)) : Env * obj :=
  let '(env, (pots, k_pot)) := st in
  (env, <["k_pot" := k_pot]> (<["sampled_pots" := pots]> self)).

(** Modelled from the spec: [cross_validation.cross_validation], of the
    module imported at line 9, which is not among the sources.  Sections
    4.8 and 7: it fails with [InvalidFoldCountError] if
    [n_folds > N_electrodes] or [n_folds < 1], at the point of detection;
    section 5: the error of a candidate is computed from an unmodified
    shared [K_pot], read-only after construction, and section 3: the
    sampled potentials are never mutated.  What it computes otherwise,
    the partition into folds (which may be random, whence the outside
    state) and the prediction error, is the parameter [fold_error]. *)
Definition spec_cross_validation
  (fold_error : Env -> Qc -> attr -> attr -> nat -> Z -> result Qc * Env)
  (env : Env) (lambd : Qc) (pots k_pot : attr) (n : nat) (n_folds : Z)
  : cv_outcome Env :=
  if decide (n_folds < 1 \/ Z.of_nat n < n_folds)%Z
  then mk_cv_outcome (Err InvalidFoldCountError) env pots k_pot
  else mk_cv_outcome (fst (fold_error env lambd pots k_pot n n_folds))
                     (snd (fold_error env lambd pots k_pot n n_folds))
                     pots k_pot.

End MeanErrors.

(** A prediction error for the parameter [fold_error]: it counts the
    calls in the outside state and reports [(lambd - 1/4)^2]. *)
Definition sample_fold_error (calls : nat) (lambd : Qc) (pots k_pot : attr)
  (n : nat) (n_folds : Z) : result Qc * nat :=
  (Ok ((lambd - Q2Qc (1 # 4)) ^ 2), S calls).


(** ** Frame conditions *)

(** A computation keeps an attribute when the attribute reads the same
    before and after it, whether it returns or raises. *)
Definition keeps (name : string) {A} (m : M obj A) : Prop :=
  forall self, snd (m self) !! name = self !! name.

(** A computation that only reads the instance. *)
Definition readonly {St A} (m : M St A) : Prop :=
  forall s, snd (m s) = s.

(** A computation next to the outside state that leaves the instance as
    it found it. *)
Definition keeps_self {Env A} (m : M (Env * obj) A) : Prop :=
  forall env self, snd (snd (m (env, self))) = self.

(** A computation next to the outside state that leaves every attribute
    alone, the two arrays handed to [cross_validation] apart. *)
Definition keeps_other_attributes {Env A} (m : M (Env * obj) A) : Prop :=
  forall env self name,
    name <> "sampled_pots" -> name <> "k_pot" ->
    snd (snd (m (env, self))) !! name = self !! name.

(** ** The rest of the class *)

Definition newline : string := String (Ascii.ascii_of_nat 10) EmptyString.

(** [key.startswith('_')] *)
Definition startswith_underscore (key : string) : bool :=
  match key with
  | String c _ => Ascii.eqb c (Ascii.ascii_of_nat 95)
  | EmptyString => false
  end.

Section Repr.

(** The text the [%s] conversion gives for an attribute value; how a
    float or an array prints is not modelled. *)
Variable py_str : attr -> string.

(** [vars(self).keys()]: the attribute names in the order the dictionary
    lists them, an order Python 2 does not specify. *)
Variable dict_keys : obj -> list string.

(** ['%s : %s\n' % (key, vars(self)[key])] *)
Definition repr_line (key : string) (v : attr) : string :=
  String.append key
    (String.append " : " (String.append (py_str v) newline)).

(** [for key in vars(self).keys(): if not key.startswith('_'): info += ...] *)
Fixpoint repr_loop (keys : list string) (self : obj) (info : string)
  : result string :=
  match keys with
  | [] => Ok info
  | key :: rest =>
      if startswith_underscore key then repr_loop rest self info
      else match self !! key with
           | Some v => repr_loop rest self (String.append info (repr_line key v))
           | None => Err KeyError
           end
  end.

(** [KCSD3D.__repr__] *)
Definition __repr__ (self : obj) : result string :=
  repr_loop (dict_keys self) self "KCSD3D".

End Repr.

(** One order of the keys and one printer, to run [__repr__]. *)
Definition sample_dict_keys (self : obj) : list string :=
  map fst (map_to_list self).

Definition sample_py_str (a : attr) : string :=
  match a with
  | AVal (PStr s) => s
  | AVal PNone => "None"
  | _ => "..."
  end.

(** ** Quadratic forms and linear combinations *)

(** [y^T K y] *)
Definition quad_form (K : matrix) (y : vec) : Qc :=
  dotp y (map (fun row => dotp row y) K).

Definition vadd (u v : vec) : vec := zip_with Qcplus u v.

(** [sum_i y_i c_i] for vectors [c_i] of length [r]. *)
Fixpoint lincomb (r : nat) (cols : matrix) (y : vec) : vec :=
  match cols, y with
  | c :: cols', a :: y' => vadd (np_scale a c) (lincomb r cols' y')
  | _, _ => replicate r 0
  end.

(** [B^T B] entry by entry, [A B] entry by entry. *)
Definition spec_mat_mul_entry (A B : matrix) (i j : nat) : Qc :=
  sum_to (length B) (fun k => nth k (nth i A []) 0 * nth j (nth k B []) 0).

(** ** Bounds of the estimation volume *)

Definition is_max (v : vec) (m : Qc) : Prop :=
  m ∈ v /\ forall x, x ∈ v -> x <= m.

Definition is_min (v : vec) (m : Qc) : Prop :=
  m ∈ v /\ forall x, x ∈ v -> m <= x.

(** What an attribute read through [params.get(key, default)] holds: the
    value of [params] when the key is there, otherwise a float with the
    property of the default. *)
Definition param_or_default (params : gmap string pyval) (key : string)
  (P : Qc -> Prop) (a : option attr) : Prop :=
  match params !! key with
  | Some u => a = Some (AVal u)
  | None => exists m, a = Some (AVal (PFloat m)) /\ P m
  end.

(** ** Fields on the grid *)

(** The field after the first [s] electrodes were accumulated: at each
    grid point the sum of [beta[i] * table[g, i]] over [i < s]. *)
Definition partial_field (beta : vec) (table : matrix) (s : nat) : vec :=
  map (fun row => sum_to s (fun i => nth i beta 0 * nth i row 0)) table.

(** What an estimate leaves behind: the returned array stored under
    [name] and nothing else changed, or, after an exception, the instance
    as it was. *)
Definition stores_result (name : string) (self : obj)
  (res : result ndarray * obj) : Prop :=
  match res with
  | (Ok a, self') => self' = <[name := ANd a]> self
  | (Err _, self') => self' = self
  end.

(** Basis matrices of 3 sources, 2 electrodes, 2 and 1 grid points. *)
Definition sample_basis : obj :=
  <["b_pot_matrix" := AMat [zs [1; 2]%Z; zs [3; 4]%Z; zs [5; 6]%Z]]>
  (<["b_src_matrix" := AMat [zs [1; 0; 0]%Z; zs [0; 1; 0]%Z]]>
  (<["b_interp_pot_matrix" := AMat [zs [1; 1; 1]%Z]]> ∅)).

(** The inverse [inv_exact] returns for the kernel of the sample
    instance. *)
Definition sample_inverse : matrix :=
  Eval vm_compute in
    match inv_exact (spec_regularized (identity 4) 0) with
    | Ok m => m
    | Err _ => []
    end.

(** The sample instance with potentials that are all zero. *)
Definition sample_silent_instance : obj :=
  <["sampled_pots" := AVec (replicate 4 0)]> (sample_instance 4).

(** The sample instance on a flat 2 x 2 x 1 grid. *)
Definition sample_flat_instance : obj :=
  <["space_X" := ANd (mk_ndarray [2; 2; 1]%nat (replicate 4 0))]> (sample_instance 4).

(** The flat sample instance with [lambd = 1] and two tables that
    show the weights: [interp_pot] the identity and [k_interp_cross]
    twice the identity. *)
Definition sample_ridge_instance : obj :=
  <["lambd" := AVal (PFloat 1)]>
  (<["interp_pot" := AMat (identity 4)]>
  (<["k_interp_cross" := AMat (np_scale_mat 2 (identity 4))]> sample_flat_instance)).

(** A computation whose result does not depend on the attribute
    [name]. *)
Definition ignores (name : string) {A} (m : M obj A) : Prop :=
  forall self v, fst (m (<[name := v]> self)) = fst (m self).

(** ** Instances ready for cross-validation *)


(** * Properties *)

(** ** Running the monad *)

Lemma bind_run {St A B} (m : M St A) (k : A -> M St B) (s : St) :
  bind m k s = match m s with
               | (Ok a, s') => k a s'
               | (Err e, s') => (Err e, s')
               end.
Proof. reflexivity. Qed.

Lemma bind_ok {St A B} (m : M St A) (k : A -> M St B) (s s' : St) (a : A) :
  m s = (Ok a, s') -> bind m k s = k a s'.
Proof. intros H. unfold bind. now rewrite H. Qed.

Lemma bind_err {St A B} (m : M St A) (k : A -> M St B) (s s' : St) (e : exn) :
  m s = (Err e, s') -> bind m k s = (Err e, s').
Proof. intros H. unfold bind. now rewrite H. Qed.

Lemma getattr_some (name : string) (a : attr) (self : obj) :
  self !! name = Some a -> getattr name self = (Ok a, self).
Proof. intros H. unfold getattr. now rewrite H. Qed.

Lemma getattr_none (name : string) (self : obj) :
  self !! name = None -> getattr name self = (Err AttributeError, self).
Proof. intros H. unfold getattr. now rewrite H. Qed.

Lemma getmat_some (name : string) (K : matrix) (self : obj) :
  self !! name = Some (AMat K) -> getmat name self = (Ok K, self).
Proof. intros H. unfold getmat. now rewrite (bind_ok _ _ _ _ _ (getattr_some _ _ _ H)). Qed.

Lemma getvec_some (name : string) (v : vec) (self : obj) :
  self !! name = Some (AVec v) -> getvec name self = (Ok v, self).
Proof. intros H. unfold getvec. now rewrite (bind_ok _ _ _ _ _ (getattr_some _ _ _ H)). Qed.

Lemma getnd_some (name : string) (a : ndarray) (self : obj) :
  self !! name = Some (ANd a) -> getnd name self = (Ok a, self).
Proof. intros H. unfold getnd. now rewrite (bind_ok _ _ _ _ _ (getattr_some _ _ _ H)). Qed.

Lemma getval_some (name : string) (v : pyval) (self : obj) :
  self !! name = Some (AVal v) -> getval name self = (Ok v, self).
Proof. intros H. unfold getval. now rewrite (bind_ok _ _ _ _ _ (getattr_some _ _ _ H)). Qed.

Lemma getfloat_some (name : string) (v : pyval) (q : Qc) (self : obj) :
  self !! name = Some (AVal v) -> py_float v = Ok q ->
  getfloat name self = (Ok q, self).
Proof.
  intros H Hq. unfold getfloat.
  rewrite (bind_ok _ _ _ _ _ (getval_some _ _ _ H)). unfold lift. now rewrite Hq.
Qed.

(** ** Step profile *)

Lemma Qc_square (x : Qc) : x ^ 2 = x * x.
Proof. simpl. ring. Qed.

(** In exact arithmetic [step_rescale] is the indicator of the closed
    ball of radius [R] centered at the origin: it returns 1 exactly when
    [xp*xp + yp*yp + zp*zp <= R*R], and 0 exactly when it is not. *)
Theorem step_rescale_indicator (xp yp zp R : Qc) :
  (step_rescale xp yp zp R = 1%Z <-> xp * xp + yp * yp + zp * zp <= R * R) /\
  (step_rescale xp yp zp R = 0%Z <-> ~ xp * xp + yp * yp + zp * zp <= R * R).
Proof.
  unfold step_rescale. rewrite !Qc_square.
  destruct (bool_decide_reflect (xp * xp + yp * yp + zp * zp <= R * R)) as [H | H];
    simpl; split; split; intros; try done.
Qed.

(** *** The step profile on float64 numbers *)

Section Binary64Facts.
Local Open Scope Z_scope.







End Binary64Facts.

Section Rounding.
Local Open Scope Z_scope.
Variables prec emax : Z.
Hypothesis prec_pos : 0 < prec.






Hypothesis prec_lt_emax : prec < emax.









End Rounding.

Section Binary64Values.
Local Open Scope Z_scope.





End Binary64Values.

Section Compare.
Local Open Scope Z_scope.
Variables prec emax : Z.
Hypothesis prec_pos : 0 < prec.






End Compare.

Section Binary64Step.
Local Open Scope Z_scope.
Import Float64.






End Binary64Step.




(** ** Construction *)

Lemma validate_parameters_ok (elec_pos : list pos3) (sampled_pots : vec) :
  validate_parameters elec_pos sampled_pots = Ok tt <->
  length elec_pos = length sampled_pots /\ (4 <= length elec_pos)%nat.
Proof.
  unfold validate_parameters. repeat case_decide; split; intros; try done; lia.
Qed.

Lemma np_max_nonempty (v : vec) : v <> [] -> exists m, np_max v = Ok m.
Proof. destruct v; [done | eauto]. Qed.

Lemma np_min_nonempty (v : vec) : v <> [] -> exists m, np_min v = Ok m.
Proof. destruct v; [done | eauto]. Qed.

Lemma elec_max_run (coord : pos3 -> Qc) (p : list pos3) (self : obj) :
  self !! "elec_pos" = Some (APos p) -> p <> [] ->
  exists m, elec_max coord self = (Ok (PFloat m), self).
Proof.
  intros Hp Hne. unfold elec_max.
  destruct (np_max_nonempty (map coord p)) as [m Hm]; [by destruct p |].
  exists m. rewrite (bind_ok _ _ _ _ _ (getattr_some _ _ _ Hp)).
  unfold bind, lift, ret. simpl. now rewrite Hm.
Qed.

Lemma elec_min_run (coord : pos3 -> Qc) (p : list pos3) (self : obj) :
  self !! "elec_pos" = Some (APos p) -> p <> [] ->
  exists m, elec_min coord self = (Ok (PFloat m), self).
Proof.
  intros Hp Hne. unfold elec_min.
  destruct (np_min_nonempty (map coord p)) as [m Hm]; [by destruct p |].
  exists m. rewrite (bind_ok _ _ _ _ _ (getattr_some _ _ _ Hp)).
  unfold bind, lift, ret. simpl. now rewrite Hm.
Qed.

Ltac solve_lookup :=
  repeat (rewrite lookup_insert_ne by done);
  first [eassumption | apply lookup_insert_eq].

Ltac step_setattr := erewrite (bind_ok (setattr _ _)) by reflexivity.

Ltac step_elec p :=
  match goal with
  | |- context [bind (elec_max ?c) _ ?s] =>
      let m := fresh "m" in
      let H := fresh "H" in
      destruct (elec_max_run c p s) as [m H];
      [solve_lookup | done | rewrite (bind_ok _ _ _ _ _ H); clear H]
  | |- context [bind (elec_min ?c) _ ?s] =>
      let m := fresh "m" in
      let H := fresh "H" in
      destruct (elec_min_run c p s) as [m H];
      [solve_lookup | done | rewrite (bind_ok _ _ _ _ _ H); clear H]
  end.

Lemma set_parameters_TypeError (params : gmap string pyval) (p : list pos3) (self : obj) :
  self !! "elec_pos" = Some (APos p) -> p <> [] ->
  fst (set_parameters params self) = Err TypeError.
Proof.
  intros Hp Hne. unfold set_parameters.
  do 2 step_setattr.
  do 6 (step_elec p; step_setattr).
  step_setattr.
  erewrite (bind_ok (getattr "elec_pos")); [| apply getattr_some; solve_lookup].
  reflexivity.
Qed.

(** C10. Every construction whose input passes validation raises
    [TypeError], whatever [params] holds (an explicit ['R_init'] included):
    the default [2*calc_min_dist(self.elec_pos)] is evaluated before
    [params.get] is called, and [calc_min_dist] returns [None]. *)
Theorem init_raises_TypeError (elec_pos : list pos3) (sampled_pots : vec)
  (params : gmap string pyval) (self : obj) :
  validate_parameters elec_pos sampled_pots = Ok tt ->
  fst (__init__ elec_pos sampled_pots params self) = Err TypeError.
Proof.
  intros Hv. unfold __init__.
  erewrite (bind_ok (lift _)); [| unfold lift; now rewrite Hv].
  do 2 step_setattr.
  apply (set_parameters_TypeError params elec_pos).
  - solve_lookup.
  - apply validate_parameters_ok in Hv. destruct elec_pos; simpl in *; [lia | done].
Qed.

Lemma init_raises_TypeError_witness :
  validate_parameters sample_electrodes sample_pots = Ok tt /\
  fst (__init__ sample_electrodes sample_pots {["R_init" := PFloat 1]} ∅)
  = Err TypeError.
Proof.
  split; [reflexivity | apply init_raises_TypeError; reflexivity].
Defined.

(** No construction returns: validation fails, or line 55 raises. *)
Lemma init_never_returns (elec_pos : list pos3) (sampled_pots : vec)
  (params : gmap string pyval) (self : obj) :
  exists e, fst (__init__ elec_pos sampled_pots params self) = Err e.
Proof.
  unfold __init__.
  destruct (validate_parameters elec_pos sampled_pots) as [[] | e] eqn:Hv.
  - exists TypeError.
    erewrite (bind_ok (lift _)) by reflexivity.
    do 2 step_setattr.
    apply (set_parameters_TypeError params elec_pos); [solve_lookup |].
    apply validate_parameters_ok in Hv. destruct elec_pos; simpl in *; [lia | done].
  - exists e. now erewrite (bind_err (lift _)) by reflexivity.
Qed.

(** C6. When the number of electrodes differs from the number of sampled
    potentials, or is less than 4, construction fails with one of the two
    validation errors and the instance is left as it was: no attribute has
    been assigned. *)
Theorem init_rejects_bad_counts (elec_pos : list pos3) (sampled_pots : vec)
  (params : gmap string pyval) (self : obj) :
  length elec_pos <> length sampled_pots \/ (length elec_pos < 4)%nat ->
  exists e, ValidationError e /\
            validate_parameters elec_pos sampled_pots = Err e /\
            __init__ elec_pos sampled_pots params self = (Err e, self).
Proof.
  intros Hbad. unfold __init__, ValidationError, validate_parameters.
  repeat case_decide; try lia; eexists; (split; [| split; [reflexivity |]]);
    try (unfold bind, lift; reflexivity); auto.
Qed.

Lemma init_rejects_bad_counts_witness :
  (length (take 3 sample_electrodes) <> length (take 3 sample_pots)
   \/ (length (take 3 sample_electrodes) < 4)%nat) /\
  exists e, ValidationError e /\
            validate_parameters (take 3 sample_electrodes) (take 3 sample_pots) = Err e /\
            __init__ (take 3 sample_electrodes) (take 3 sample_pots) ∅ ∅ = (Err e, ∅).
Proof.
  assert (H : length (take 3 sample_electrodes) <> length (take 3 sample_pots)
              \/ (length (take 3 sample_electrodes) < 4)%nat)
    by (right; simpl; lia).
  split; [exact H | exact (init_rejects_bad_counts _ _ ∅ ∅ H)].
Defined.

(** ** Kernel matrix *)

Lemma map_fmap {A B} (f : A -> B) (l : list A) : map f l = f <$> l.
Proof. reflexivity. Qed.

Lemma dotp_comm (u v : vec) : dotp u v = dotp v u.
Proof.
  unfold dotp. f_equal. revert v.
  induction u as [| a u IH]; intros [| b v]; simpl; try done.
  rewrite IH. f_equal. ring.
Qed.

Lemma foldr_seq_shift (f : nat -> Qc) (s n : nat) :
  foldr (fun j acc => f j + acc) 0 (seq (S s) n) =
  foldr (fun j acc => f (S j) + acc) 0 (seq s n).
Proof.
  revert s. induction n as [| n IH]; intros s; simpl; [done |].
  now rewrite IH.
Qed.

Lemma dotp_sum_to (row y : vec) :
  length row = length y ->
  dotp row y = sum_to (length row) (fun j => nth j row 0 * nth j y 0).
Proof.
  unfold dotp, sum_to. revert y.
  induction row as [| a row IH]; intros [| b y] Hlen; simpl in *; try done.
  rewrite foldr_seq_shift. simpl. f_equal. apply IH. lia.
Qed.

Lemma transpose_row_length (B : matrix) :
  Forall (fun row => length row = length B) (transpose B).
Proof.
  destruct B as [| r B]; simpl; [constructor |].
  apply List.Forall_forall. intros row Hin.
  apply in_map_iff in Hin as (j & <- & _).
  simpl. now rewrite length_map.
Qed.

Lemma entry_gram (T : matrix) (i j : nat) :
  entry (map (fun row => map (fun col => dotp row col) T) T) i j =
  match T !! i, T !! j with
  | Some ri, Some rj => Some (dotp ri rj)
  | _, _ => None
  end.
Proof.
  unfold entry. rewrite map_fmap, list_lookup_fmap.
  destruct (T !! i) as [ri |]; simpl; [| done].
  rewrite map_fmap, list_lookup_fmap. now destruct (T !! j).
Qed.

Lemma keeps_ret name {A} (a : A) : keeps name (ret a).
Proof. now intros self. Qed.

Lemma keeps_raise name {A} (e : exn) : keeps name (@raise obj A e).
Proof. now intros self. Qed.

Lemma keeps_lift name {A} (r : result A) : keeps name (lift r).
Proof. now intros self. Qed.

Lemma keeps_getattr name n : keeps name (getattr n).
Proof. intros self. unfold getattr. now destruct (self !! n). Qed.

Lemma keeps_setattr name n a : n <> name -> keeps name (setattr n a).
Proof. intros Hne self. simpl. now rewrite lookup_insert_ne. Qed.

Lemma keeps_bind name {A B} (m : M obj A) (k : A -> M obj B) :
  keeps name m -> (forall a, keeps name (k a)) -> keeps name (bind m k).
Proof.
  intros Hm Hk self. unfold bind. specialize (Hm self).
  destruct (m self) as [[a | e] self']; simpl in *; [rewrite Hk |]; done.
Qed.

Create HintDb frame.
#[local] Hint Resolve keeps_ret keeps_raise keeps_lift keeps_getattr keeps_bind : frame.
#[local] Hint Extern 1 (keeps _ (setattr _ _)) => apply keeps_setattr; discriminate : frame.
#[local] Hint Extern 2 (keeps _ (getmat _)) => unfold getmat : frame.

Lemma calculate_matrices_k_pot (self : obj) (B : matrix) :
  self !! "b_pot_matrix" = Some (AMat B) ->
  snd (calculate_matrices self) !! "k_pot" =
  Some (AMat (map (fun row => map (fun col => dotp row col) (transpose B)) (transpose B))).
Proof.
  intros HB.
  assert (Hget : getmat "b_pot_matrix" self = (Ok B, self)).
  { unfold getmat. now rewrite (bind_ok _ _ _ _ _ (getattr_some _ _ _ HB)). }
  unfold calculate_matrices, create_dist_table, calculate_b_pot_matrix,
    calculate_b_pot_matrix_3D.
  do 2 (erewrite (bind_ok (ret tt)) by reflexivity).
  do 2 rewrite (bind_ok _ _ _ _ _ Hget).
  erewrite (bind_ok (lift _)).
  2: { unfold lift, np_dot_mm. rewrite decide_True by apply transpose_row_length.
       reflexivity. }
  step_setattr.
  match goal with
  | |- snd (?tail ?s) !! _ = _ =>
      assert (Hk : keeps "k_pot" tail)
  end.
  { unfold calculate_b_src_matrix, make_b_src_matrix_3D,
      calculate_b_interp_pot_matrix, make_b_interp_pot_matrix_3D.
    auto 30 with frame. }
  rewrite Hk. apply lookup_insert_eq.
Qed.

Lemma sum_to_ext (n : nat) (f g : nat -> Qc) :
  (forall k, f k = g k) -> sum_to n f = sum_to n g.
Proof.
  intros Hfg. unfold sum_to. induction (seq 0 n) as [| k l IH]; simpl; [done |].
  now rewrite IH, Hfg.
Qed.

Lemma nth_column (B : matrix) (i k : nat) :
  nth k (map (fun row => nth i row 0) B) 0 = nth i (nth k B []) 0.
Proof.
  rewrite <- (map_nth (fun row => nth i row 0) B [] k). now destruct i.
Qed.

(** The entries of the assigned [k_pot] are those of [B^T B]:
    [K[i,j] = sum_k B[k,i] * B[k,j]]. *)
Lemma k_pot_is_gram (self : obj) (B : matrix) (i j : nat) :
  self !! "b_pot_matrix" = Some (AMat B) ->
  (i < length (hd [] B))%nat -> (j < length (hd [] B))%nat ->
  exists K : matrix,
    snd (calculate_matrices self) !! "k_pot" = Some (AMat K) /\
    entry K i j =
    Some (sum_to (length B) (fun k => nth i (nth k B []) 0 * nth j (nth k B []) 0)).
Proof.
  intros HB Hi Hj. eexists. split; [apply (calculate_matrices_k_pot _ _ HB) |].
  rewrite entry_gram. destruct B as [| r0 B']; simpl in Hi, Hj; [lia |].
  unfold transpose. rewrite !map_fmap, !list_lookup_fmap.
  rewrite !lookup_seq_lt by done. cbn [fmap option_fmap option_map Nat.add].
  f_equal.
  rewrite dotp_sum_to by now rewrite !length_map.
  rewrite length_map. apply sum_to_ext. intros k. now rewrite !nth_column.
Qed.

(** C5. Whatever [b_pot_matrix] holds, the kernel matrix that
    [calculate_matrices] assigns to [k_pot] is symmetric:
    [K_pot[i,j] = K_pot[j,i]] for all [i] and [j]. *)
Theorem k_pot_symmetric (self : obj) (B : matrix) :
  self !! "b_pot_matrix" = Some (AMat B) ->
  exists K : matrix,
    snd (calculate_matrices self) !! "k_pot" = Some (AMat K) /\
    forall i j, entry K i j = entry K j i.
Proof.
  intros HB. eexists. split; [apply (calculate_matrices_k_pot _ _ HB) |].
  intros i j. rewrite !entry_gram.
  destruct (transpose B !! i), (transpose B !! j); try done.
  now rewrite dotp_comm.
Qed.

Lemma k_pot_symmetric_witness :
  let B := [zs [1; 2]%Z; zs [3; 4]%Z; zs [5; 6]%Z] in
  let self : obj := <["b_pot_matrix" := AMat B]> ∅ in
  self !! "b_pot_matrix" = Some (AMat B) /\
  exists K : matrix,
    snd (calculate_matrices self) !! "k_pot" = Some (AMat K) /\
    forall i j, entry K i j = entry K j i.
Proof.
  intros B self.
  split; [reflexivity | apply (k_pot_symmetric self B); reflexivity].
Defined.

(** ** Regularized solution *)

Lemma rsequence_ok {A} (l : list A) : rsequence (map Ok l) = Ok l.
Proof. induction l as [| a l IH]; simpl; [done | now rewrite IH]. Qed.

Lemma zip_with_ok {A B C} (f : A -> B -> C) (l1 : list A) (l2 : list B) :
  zip_with (fun a b => Ok (f a b)) l1 l2 = map Ok (zip_with f l1 l2).
Proof.
  revert l2. induction l1 as [| a l1 IH]; intros [| b l2]; simpl; try done.
  now rewrite IH.
Qed.

Lemma bzip_same_length {A B C} (f : A -> B -> C) (l1 : list A) (l2 : list B) :
  length l1 = length l2 ->
  bzip (fun a b => Ok (f a b)) l1 l2 = Ok (zip_with f l1 l2).
Proof.
  intros Hlen. unfold bzip. rewrite decide_True by done.
  now rewrite zip_with_ok, rsequence_ok.
Qed.

Lemma np_add_mat_same_shape (A B : matrix) :
  Forall2 (fun r1 r2 => length r1 = length r2) A B ->
  np_add_mat A B = Ok (zip_with (zip_with Qcplus) A B).
Proof.
  intros H. unfold np_add_mat. unfold bzip at 1.
  rewrite decide_True by (eapply Forall2_length; eauto).
  induction H as [| r1 r2 A B Hr H IH]; [done |].
  cbn [zip_with rsequence].
  rewrite (bzip_same_length Qcplus) by done. now rewrite IH.
Qed.

Lemma identity_lookup (n i : nat) :
  (i < n)%nat ->
  identity n !! i = Some (map (fun j => if decide (i = j) then 1 else 0) (seq 0 n)).
Proof.
  intros Hi. unfold identity. rewrite map_fmap, list_lookup_fmap.
  now rewrite lookup_seq_lt.
Qed.

Lemma np_add_identity (K : matrix) (lam : Qc) (n : nat) :
  length K = n -> Forall (fun row => length row = n) K ->
  np_add_mat K (np_scale_mat lam (identity n)) = Ok (spec_regularized K lam).
Proof.
  intros Hn Hrows.
  assert (Hlen : length (np_scale_mat lam (identity n)) = n).
  { unfold np_scale_mat, identity. now rewrite !length_map, length_seq. }
  rewrite np_add_mat_same_shape.
  - f_equal. apply list_eq. intros i.
    unfold spec_regularized. rewrite lookup_zip_with, list_lookup_imap.
    destruct (K !! i) as [row |] eqn:Hrow; simpl; [| done].
    assert (Hi : (i < n)%nat) by (rewrite <- Hn; eapply lookup_lt_Some; eauto).
    assert (Hr : length row = n).
    { eapply (proj1 (Forall_lookup _ _) Hrows); eauto. }
    unfold np_scale_mat. rewrite map_fmap, list_lookup_fmap, identity_lookup by done.
    simpl. f_equal. apply list_eq. intros j.
    rewrite lookup_zip_with, list_lookup_imap.
    destruct (row !! j) as [x |] eqn:Hx; simpl; [| done].
    assert (Hj : (j < n)%nat) by (rewrite <- Hr; eapply lookup_lt_Some; eauto).
    rewrite !map_fmap, !list_lookup_fmap, lookup_seq_lt by done. simpl.
    f_equal. case_decide; ring.
  - apply Forall2_same_length_lookup. split; [congruence |].
    intros i r1 r2 H1 H2.
    assert (Hi : (i < n)%nat) by (rewrite <- Hn; eapply lookup_lt_Some; eauto).
    unfold np_scale_mat in H2.
    rewrite map_fmap, list_lookup_fmap, identity_lookup in H2 by done.
    simpl in H2. injection H2 as <-.
    rewrite !length_map, length_seq.
    eapply (proj1 (Forall_lookup _ _) Hrows); eauto.
Qed.

Lemma np_dot_mv_spec (A : matrix) (y : vec) (n : nat) :
  length y = n -> Forall (fun row => length row = n) A ->
  np_dot_mv A y = Ok (spec_mat_vec n A y).
Proof.
  intros Hy Hrows. unfold np_dot_mv, spec_mat_vec.
  rewrite decide_True by (now rewrite Hy).
  f_equal. apply map_ext_in. intros row Hin.
  assert (Hr : length row = n).
  { rewrite List.Forall_forall in Hrows. now apply Hrows. }
  rewrite dotp_sum_to by congruence. now rewrite Hr.
Qed.

Section Solve.

Variable np_linalg_inv : matrix -> result matrix.

Variables (self : obj) (K : matrix) (lv : pyval) (lam : Qc) (y : vec) (n : nat).
Hypothesis HK : self !! "k_pot" = Some (AMat K).
Hypothesis Hl : self !! "lambd" = Some (AVal lv).
Hypothesis Hlam : py_float lv = Ok lam.
Hypothesis Hy : self !! "sampled_pots" = Some (AVec y).
Hypothesis Hn : length K = n.
Hypothesis Hrows : Forall (fun row => length row = n) K.
Hypothesis Hlen : length y = n.
Hypothesis Hinv : forall K_inv,
    np_linalg_inv (spec_regularized K lam) = Ok K_inv ->
    Forall (fun row => length row = n) K_inv.

Lemma estimate_pots_beta_run :
  estimate_pots_beta np_linalg_inv self = (spec_solve np_linalg_inv K lam y, self).
Proof using All.
  unfold estimate_pots_beta.
  rewrite (bind_ok _ _ _ _ _ (getmat_some _ _ _ HK)).
  rewrite (bind_ok _ _ _ _ _ (getfloat_some _ _ _ _ Hl Hlam)).
  rewrite (bind_ok _ _ _ _ _ (getattr_some _ _ _ HK)).
  erewrite (bind_ok (lift _)) by reflexivity. simpl length.
  erewrite (bind_ok (lift _)).
  2: { unfold lift. rewrite Hn. now rewrite (np_add_identity K lam n). }
  unfold spec_solve.
  destruct (np_linalg_inv (spec_regularized K lam)) as [K_inv | e] eqn:E.
  - erewrite (bind_ok (lift _)) by reflexivity.
    rewrite (bind_ok _ _ _ _ _ (getvec_some _ _ _ Hy)).
    unfold lift. rewrite (np_dot_mv_spec K_inv y n) by auto. now rewrite Hn.
  - now erewrite (bind_err (lift _)) by reflexivity.
Qed.

Lemma estimate_csd_beta_run :
  estimate_csd_beta np_linalg_inv self = (spec_solve np_linalg_inv K lam y, self).
Proof using All.
  unfold estimate_csd_beta.
  rewrite (bind_ok _ _ _ _ _ (getmat_some _ _ _ HK)).
  rewrite (bind_ok _ _ _ _ _ (getfloat_some _ _ _ _ Hl Hlam)).
  rewrite (bind_ok _ _ _ _ _ (getattr_some _ _ _ HK)).
  erewrite (bind_ok (lift _)) by reflexivity. simpl length.
  erewrite (bind_ok (lift _)).
  2: { unfold lift. rewrite Hn. now rewrite (np_add_identity K lam n). }
  unfold spec_solve.
  destruct (np_linalg_inv (spec_regularized K lam)) as [K_inv | e] eqn:E.
  - erewrite (bind_ok (lift _)) by reflexivity.
    rewrite (bind_ok _ _ _ _ _ (getvec_some _ _ _ Hy)).
    unfold lift. rewrite (np_dot_mv_spec K_inv y n) by auto. now rewrite Hn.
  - now erewrite (bind_err (lift _)) by reflexivity.
Qed.

End Solve.

(** ** Shape of the estimates *)

Lemma bind_inv {St A B} (m : M St A) (k : A -> M St B) (s s' : St) (b : B) :
  bind m k s = (Ok b, s') ->
  exists a s1, m s = (Ok a, s1) /\ k a s1 = (Ok b, s').
Proof.
  unfold bind. destruct (m s) as [[a | e] s1]; [eauto | discriminate].
Qed.

Lemma lift_inv {St A} (r : result A) (s s' : St) (a : A) :
  lift r s = (Ok a, s') -> r = Ok a /\ s' = s.
Proof. unfold lift. intros [= -> ->]. done. Qed.

Lemma readonly_ret {St A} (a : A) : readonly (@ret St A a).
Proof. now intros s. Qed.

Lemma readonly_lift {St A} (r : result A) : readonly (@lift St A r).
Proof. now intros s. Qed.

Lemma readonly_getattr (name : string) : readonly (getattr name).
Proof. intros s. unfold getattr. now destruct (s !! name). Qed.

Lemma readonly_bind {St A B} (m : M St A) (k : A -> M St B) :
  readonly m -> (forall a, readonly (k a)) -> readonly (bind m k).
Proof.
  intros Hm Hk s. unfold bind. specialize (Hm s).
  destruct (m s) as [[a | e] s1]; simpl in *; subst; [apply Hk | done].
Qed.

#[local] Hint Resolve readonly_ret readonly_lift readonly_getattr readonly_bind : frame.
#[local] Hint Extern 2 (readonly (getmat _)) => unfold getmat : frame.
#[local] Hint Extern 2 (readonly (getvec _)) => unfold getvec : frame.
#[local] Hint Extern 2 (readonly (getnd _)) => unfold getnd : frame.
#[local] Hint Extern 2 (readonly (getval _)) => unfold getval : frame.
#[local] Hint Extern 2 (readonly (getfloat _)) => unfold getfloat : frame.

Lemma readonly_run {St A} (m : M St A) (s s' : St) (r : result A) :
  readonly m -> m s = (r, s') -> s' = s.
Proof. intros Hm H. specialize (Hm s). rewrite H in Hm. exact Hm. Qed.

Lemma estimate_pots_beta_readonly inv : readonly (estimate_pots_beta inv).
Proof. unfold estimate_pots_beta. auto 20 with frame. Qed.

Lemma estimate_csd_beta_readonly inv : readonly (estimate_csd_beta inv).
Proof. unfold estimate_csd_beta. auto 20 with frame. Qed.

Lemma np_iadd_length (out v out' : vec) :
  np_iadd out v = Ok out' -> length out' = length out.
Proof.
  unfold np_iadd. case_decide as Hlen.
  - intros [= <-]. rewrite length_zip_with. lia.
  - destruct v as [| x [| ? ?]]; try discriminate.
    intros [= <-]. now rewrite length_map.
Qed.

Lemma for_each_accumulate_length beta table idx (out out' : vec) :
  for_each (accumulate beta table) idx out = Ok out' -> length out' = length out.
Proof.
  revert out. induction idx as [| i idx IH]; intros out; simpl.
  - now intros [= <-].
  - unfold accumulate at 1. unfold rbind at 1.
    destruct (np_item beta i) as [b |]; simpl; [| discriminate].
    destruct (np_col table i) as [col |]; simpl; [| discriminate].
    destruct (np_iadd out (np_scale b col)) as [o1 |] eqn:E; simpl; [| discriminate].
    intros H. apply IH in H. apply np_iadd_length in E. congruence.
Qed.

Lemma np_reshape_inv (v : vec) (dims : list nat) (r : ndarray) :
  np_reshape v dims = Ok r ->
  shape r = dims /\ length v = foldr Nat.mul 1%nat dims.
Proof. unfold np_reshape. case_decide; [intros [= <-]; done | discriminate]. Qed.

Lemma np_zeros_length (n : nat) (v : vec) :
  np_zeros (Z.of_nat n) = Ok v -> length v = n.
Proof.
  unfold np_zeros. case_decide; [lia |].
  intros [= <-]. rewrite length_replicate. lia.
Qed.

Section Shapes.

Variable np_linalg_inv : matrix -> result matrix.
Variables (self : obj) (X : ndarray) (nx ny nz : nat).
Hypothesis HX : self !! "space_X" = Some (ANd X).
Hypothesis Hshape : shape X = [nx; ny; nz].

(** Whatever [estimate_pots] returns has the 2-D shape [(nx, ny)]. *)
Lemma estimate_pots_shape (a : ndarray) (self' : obj) :
  estimate_pots np_linalg_inv self = (Ok a, self') -> shape a = [nx; ny].
Proof using HX Hshape.
  unfold estimate_pots. intros H.
  apply bind_inv in H as (table & s1 & H1 & H).
  apply readonly_run in H1 as ->; [| auto with frame].
  apply bind_inv in H as (beta & s2 & H2 & H).
  apply readonly_run in H2 as ->; [| apply estimate_pots_beta_readonly].
  rewrite (bind_ok _ _ _ _ _ (getnd_some _ _ _ HX)) in H.
  rewrite Hshape in H. erewrite (bind_ok (lift _)) in H by reflexivity.
  cbn beta iota in H.
  apply bind_inv in H as (out0 & s3 & H3 & H). apply lift_inv in H3 as [_ ->].
  apply bind_inv in H as (ep & s4 & H4 & H).
  apply readonly_run in H4 as ->; [| auto with frame].
  apply bind_inv in H as (n & s5 & H5 & H). apply lift_inv in H5 as [_ ->].
  apply bind_inv in H as (out & s6 & H6 & H). apply lift_inv in H6 as [_ ->].
  apply bind_inv in H as (r & s7 & H7 & H). apply lift_inv in H7 as [Hr ->].
  erewrite (bind_ok (setattr _ _)) in H by reflexivity.
  rewrite (bind_ok _ _ _ _ _ (getnd_some _ r _ (lookup_insert_eq _ _ _))) in H.
  injection H as <- _. now apply np_reshape_inv in Hr as [-> _].
Qed.

(** [estimate_csd] returns only when [nx*ny*nz = nx*ny]: the output
    buffer has [nx*ny] cells. *)
Lemma estimate_csd_shape (a : ndarray) (self' : obj) :
  estimate_csd np_linalg_inv self = (Ok a, self') ->
  shape a = [nx; ny; nz] /\ (nx * ny * nz = nx * ny)%nat.
Proof using HX Hshape.
  unfold estimate_csd. intros H.
  apply bind_inv in H as (table & s1 & H1 & H).
  apply readonly_run in H1 as ->; [| auto with frame].
  apply bind_inv in H as (beta & s2 & H2 & H).
  apply readonly_run in H2 as ->; [| apply estimate_csd_beta_readonly].
  rewrite (bind_ok _ _ _ _ _ (getnd_some _ _ _ HX)) in H.
  rewrite Hshape in H. erewrite (bind_ok (lift _)) in H by reflexivity.
  cbn beta iota in H.
  apply bind_inv in H as (out0 & s3 & H3 & H). apply lift_inv in H3 as [H0 ->].
  apply bind_inv in H as (ep & s4 & H4 & H).
  apply readonly_run in H4 as ->; [| auto with frame].
  apply bind_inv in H as (n & s5 & H5 & H). apply lift_inv in H5 as [_ ->].
  apply bind_inv in H as (out & s6 & H6 & H). apply lift_inv in H6 as [Hout ->].
  apply bind_inv in H as (r & s7 & H7 & H). apply lift_inv in H7 as [Hr ->].
  erewrite (bind_ok (setattr _ _)) in H by reflexivity.
  rewrite (bind_ok _ _ _ _ _ (getnd_some _ r _ (lookup_insert_eq _ _ _))) in H.
  injection H as <- _. apply np_reshape_inv in Hr as [-> Hlen]. split; [done |].
  apply for_each_accumulate_length in Hout. apply np_zeros_length in H0.
  simpl in Hlen. lia.
Qed.

End Shapes.

(** C2 (the code departs from it). On the sample instance, a 2 x 2 x 2
    grid with four electrodes: with interpolation tables of one row per
    grid point both estimates raise [ValueError], the 4-cell output buffer
    cannot take an 8-cell column; with tables of [nx*ny = 4] rows
    [estimate_pots] returns an array of shape [(2, 2)], not [(2, 2, 2)],
    and [estimate_csd] raises [ValueError] at the reshape. *)
Theorem estimates_miss_grid_shape :
  fst (estimate_pots inv_exact (sample_instance 8)) = Err ValueError /\
  fst (estimate_csd inv_exact (sample_instance 8)) = Err ValueError /\
  result_map shape (fst (estimate_pots inv_exact (sample_instance 4)))
  = Ok [2; 2]%nat /\
  fst (estimate_csd inv_exact (sample_instance 4)) = Err ValueError.
Proof. repeat split; vm_compute; reflexivity. Qed.

(** ** Estimation grid *)

Lemma linspace_last (a b : Qc) (num : Z) :
  (2 <= num)%Z -> list.last (linspace a b num) = Some b.
Proof.
  intros Hnum. unfold linspace.
  rewrite decide_False by lia. rewrite decide_False by lia.
  rewrite last_lookup, length_insert, length_map, length_seq.
  replace (Init.Nat.pred (Z.to_nat num)) with (Z.to_nat num - 1)%nat by lia.
  apply list_lookup_insert_eq. rewrite length_map, length_seq. lia.
Qed.

Lemma linspace_first (a b : Qc) (num : Z) :
  (2 <= num)%Z -> list.head (linspace a b num) = Some a.
Proof.
  intros Hnum. unfold linspace.
  rewrite decide_False by lia. rewrite decide_False by lia.
  rewrite head_lookup, list_lookup_insert_ne by lia.
  rewrite map_fmap, list_lookup_fmap, lookup_seq_lt by lia.
  simpl. f_equal. change (Z2Qc (Z.of_nat 0)) with (Q2Qc 0).
  generalize ((b - a) / Z2Qc (num - 1)). intros step. ring.
Qed.

(** One axis on float attributes: [num] is taken from the extent
    [emax - emin], the points run from [lo] to [hi]. *)
Lemma grid_axis_run (self : obj) (lo hi emax emin gd : string)
  (vlo vhi vmax vmin vgd : Qc) :
  self !! lo = Some (AVal (PFloat vlo)) ->
  self !! hi = Some (AVal (PFloat vhi)) ->
  self !! emax = Some (AVal (PFloat vmax)) ->
  self !! emin = Some (AVal (PFloat vmin)) ->
  self !! gd = Some (AVal (PFloat vgd)) ->
  vgd <> 0 ->
  grid_axis lo hi emax emin gd self =
  (Ok (linspace vlo vhi (Qc_trunc ((vmax - vmin) / vgd + Z2Qc 1))), self).
Proof.
  intros Hlo Hhi Hmax Hmin Hgd Hne. unfold grid_axis.
  rewrite (bind_ok _ _ _ _ _ (getval_some _ _ _ Hlo)).
  rewrite (bind_ok _ _ _ _ _ (getval_some _ _ _ Hhi)).
  rewrite (bind_ok _ _ _ _ _ (getval_some _ _ _ Hmax)).
  rewrite (bind_ok _ _ _ _ _ (getval_some _ _ _ Hmin)).
  erewrite (bind_ok (lift _)) by reflexivity.
  rewrite (bind_ok _ _ _ _ _ (getval_some _ _ _ Hgd)).
  erewrite (bind_ok (lift _)).
  2: { unfold lift, py_div. rewrite decide_False by done. reflexivity. }
  erewrite (bind_ok (lift _)) by reflexivity.
  reflexivity.
Qed.

(** The x axis as line 76 builds it starts at [xmin] and stops at [xmax]
    (line 77 does the same for y). *)
Lemma x_axis_ends_at_xmax (self : obj) (xmin xmax gdX : Qc) :
  self !! "xmin" = Some (AVal (PFloat xmin)) ->
  self !! "xmax" = Some (AVal (PFloat xmax)) ->
  self !! "gdX" = Some (AVal (PFloat gdX)) ->
  gdX <> 0 -> (2 <= Qc_trunc ((xmax - xmin) / gdX + Z2Qc 1))%Z ->
  exists lin_x, fst (lin_x_axis self) = Ok lin_x /\
                list.head lin_x = Some xmin /\ list.last lin_x = Some xmax.
Proof.
  intros Hxmin Hxmax Hgd Hne Hnum. unfold lin_x_axis.
  rewrite (grid_axis_run self _ _ _ _ _ xmin xmax xmax xmin gdX) by done.
  eexists. split; [reflexivity |].
  split; [now apply linspace_first | now apply linspace_last].
Qed.

(** The z axis as line 78 builds it starts at [zmin] and stops at [ymax];
    [zmax] only enters the number of points. *)
Lemma z_axis_ends_at_ymax (self : obj) (zmin ymax zmax gdZ : Qc) :
  self !! "zmin" = Some (AVal (PFloat zmin)) ->
  self !! "ymax" = Some (AVal (PFloat ymax)) ->
  self !! "zmax" = Some (AVal (PFloat zmax)) ->
  self !! "gdZ" = Some (AVal (PFloat gdZ)) ->
  gdZ <> 0 -> (2 <= Qc_trunc ((zmax - zmin) / gdZ + Z2Qc 1))%Z ->
  exists lin_z, fst (lin_z_axis self) = Ok lin_z /\
                list.head lin_z = Some zmin /\ list.last lin_z = Some ymax.
Proof.
  intros Hzmin Hymax Hzmax Hgd Hne Hnum. unfold lin_z_axis.
  rewrite (grid_axis_run self _ _ _ _ _ zmin ymax zmax zmin gdZ) by done.
  eexists. split; [reflexivity |].
  split; [now apply linspace_first | now apply linspace_last].
Qed.

(** The bounds of [sample_bounds] are the ones lines 47 to 52 assign for
    the sample electrodes, before line 55 raises. *)
Lemma sample_bounds_of_electrodes :
  let self := snd (__init__ sample_electrodes sample_pots ∅ ∅) in
  Forall (fun name => self !! name = sample_bounds !! name)
    ["xmax"; "xmin"; "ymax"; "ymin"; "zmax"; "zmin"].
Proof. repeat constructor. Qed.

(** C3 (the code departs from it). With the bounds of the sample
    electrodes, [x] and [y] in [0, 1], [z] in [0, 2], and spacing 1/2 on
    each axis, the x axis is [0, 1/2, 1] but the z axis is
    [0, 1/4, 1/2, 3/4, 1]: five points that stop at [ymax = 1], and the
    largest z coordinate of the grid is 1 while [zmax] is 2. *)
Theorem grid_z_axis_stops_at_ymax :
  sample_bounds !! "zmax" = Some (AVal (PFloat 2)) /\
  result_map fractions (fst (lin_x_axis sample_bounds)) = Ok [0; 1 # 2; 1]%Q /\
  result_map fractions (fst (lin_z_axis sample_bounds))
  = Ok [0; 1 # 4; 1 # 2; 3 # 4; 1]%Q /\
  match snd (build_grid sample_bounds) !! "space_Z" with
  | Some (ANd Z) =>
      shape Z = [3; 3; 5]%nat /\ result_map this (np_max (data Z)) = Ok 1%Q
  | _ => False
  end.
Proof. repeat split; vm_compute; reflexivity. Qed.

(** ** Cross-validation *)

Lemma keeps_self_ret {Env A} (a : A) : keeps_self (@ret (Env * obj) A a).
Proof. now intros env self. Qed.

Lemma keeps_self_lift {Env A} (r : result A) : keeps_self (@lift (Env * obj) A r).
Proof. now intros env self. Qed.

Lemma keeps_self_bind {Env A B} (m : M (Env * obj) A) (k : A -> M (Env * obj) B) :
  keeps_self m -> (forall a, keeps_self (k a)) -> keeps_self (bind m k).
Proof.
  intros Hm Hk env self. unfold bind. specialize (Hm env self).
  destruct (m (env, self)) as [[a | e] [env' self']]; simpl in *; subst;
    [apply Hk | done].
Qed.

Section CrossValidationFrame.

Variable Env : Type.
Variable cross_validation : Env -> Qc -> attr -> attr -> nat -> Z -> cv_outcome Env.

(** [cross_validation] does not write into the two arrays it is handed. *)
Hypothesis cv_reads_only : forall env lambd pots k_pot n n_folds,
    cv_pots (cross_validation env lambd pots k_pot n n_folds) = pots /\
    cv_k_pot (cross_validation env lambd pots k_pot n n_folds) = k_pot.

Lemma cv_call_keeps_self lambd n_folds :
  keeps_self (cv_call Env cross_validation lambd n_folds).
Proof using cv_reads_only.
  intros env self. unfold cv_call, on_self, bind, getattr, lift.
  destruct (self !! "sampled_pots") as [pots |] eqn:Hp; [| done].
  destruct (self !! "k_pot") as [k |] eqn:Hk; [| done].
  destruct (self !! "elec_pos") as [a |] eqn:Ha; [| done].
  destruct (shape0 a) as [n | e]; [| done].
  simpl. destruct (cv_reads_only env lambd pots k n n_folds) as [-> ->].
  rewrite (insert_id self "sampled_pots" pots Hp). now apply insert_id.
Qed.

Lemma iterations_keeps_self lambd n_folds js errors_iter :
  keeps_self (iterations Env cross_validation lambd n_folds js errors_iter).
Proof using cv_reads_only.
  revert errors_iter. induction js as [| j js IH]; intros errors_iter; simpl.
  - apply keeps_self_ret.
  - apply keeps_self_bind; [apply cv_call_keeps_self |]. intros e.
    apply keeps_self_bind; [apply keeps_self_lift | auto].
Qed.

Lemma candidates_keeps_self cands n_folds n_iter errors_iter errors :
  keeps_self (candidates Env cross_validation cands n_folds n_iter errors_iter errors).
Proof using cv_reads_only.
  revert errors_iter errors.
  induction cands as [| [i lambd] cands IH]; intros errors_iter errors; simpl.
  - apply keeps_self_ret.
  - apply keeps_self_bind; [apply iterations_keeps_self |]. intros ei.
    apply keeps_self_bind; [apply keeps_self_lift | auto].
Qed.

Lemma choose_lambda_keeps_self lambdas n_folds n_iter :
  keeps_self (choose_lambda Env cross_validation lambdas n_folds n_iter).
Proof using cv_reads_only.
  unfold choose_lambda, choose_lambda_errors.
  apply keeps_self_bind; [| intros; apply keeps_self_lift].
  apply keeps_self_bind; [apply keeps_self_lift |]. intros ei.
  apply candidates_keeps_self.
Qed.

End CrossValidationFrame.

(** The cross-validation of the specification does not write into the
    two arrays. *)
Lemma spec_cross_validation_reads_only {Env : Type}
  (fold_error : Env -> Qc -> attr -> attr -> nat -> Z -> result Qc * Env)
  env lambd pots k_pot n n_folds :
  cv_pots (spec_cross_validation Env fold_error env lambd pots k_pot n n_folds) = pots /\
  cv_k_pot (spec_cross_validation Env fold_error env lambd pots k_pot n n_folds) = k_pot.
Proof. unfold spec_cross_validation. now case_decide. Qed.

Lemma keeps_other_attributes_ret {Env A} (a : A) :
  keeps_other_attributes (@ret (Env * obj) A a).
Proof. now intros env self name. Qed.

Lemma keeps_other_attributes_lift {Env A} (r : result A) :
  keeps_other_attributes (@lift (Env * obj) A r).
Proof. now intros env self name. Qed.

Lemma keeps_other_attributes_bind {Env A B}
  (m : M (Env * obj) A) (k : A -> M (Env * obj) B) :
  keeps_other_attributes m -> (forall a, keeps_other_attributes (k a)) ->
  keeps_other_attributes (bind m k).
Proof.
  intros Hm Hk env self name H1 H2. unfold bind.
  specialize (Hm env self name H1 H2).
  destruct (m (env, self)) as [[a | e] [env' self']]; simpl in *; [| done].
  now rewrite (Hk a env' self' name H1 H2).
Qed.

Section CrossValidationAttributes.

Variable Env : Type.
Variable cross_validation : Env -> Qc -> attr -> attr -> nat -> Z -> cv_outcome Env.

(** Whatever [cross_validation] does with the two arrays, the other
    attributes are out of its reach. *)
Lemma cv_call_keeps_other_attributes lambd n_folds :
  keeps_other_attributes (cv_call Env cross_validation lambd n_folds).
Proof.
  intros env self name H1 H2. unfold cv_call, on_self, bind, getattr, lift.
  destruct (self !! "sampled_pots") as [pots |]; [| done].
  destruct (self !! "k_pot") as [k |]; [| done].
  destruct (self !! "elec_pos") as [a |]; [| done].
  destruct (shape0 a) as [n | e]; [| done].
  simpl. now rewrite !lookup_insert_ne by done.
Qed.

Lemma iterations_keeps_other_attributes lambd n_folds js errors_iter :
  keeps_other_attributes (iterations Env cross_validation lambd n_folds js errors_iter).
Proof.
  revert errors_iter. induction js as [| j js IH]; intros errors_iter; simpl.
  - apply keeps_other_attributes_ret.
  - apply keeps_other_attributes_bind; [apply cv_call_keeps_other_attributes |].
    intros e. apply keeps_other_attributes_bind;
      [apply keeps_other_attributes_lift | auto].
Qed.

Lemma candidates_keeps_other_attributes cands n_folds n_iter errors_iter errors :
  keeps_other_attributes
    (candidates Env cross_validation cands n_folds n_iter errors_iter errors).
Proof.
  revert errors_iter errors.
  induction cands as [| [i lambd] cands IH]; intros errors_iter errors; simpl.
  - apply keeps_other_attributes_ret.
  - apply keeps_other_attributes_bind; [apply iterations_keeps_other_attributes |].
    intros ei. apply keeps_other_attributes_bind;
      [apply keeps_other_attributes_lift | auto].
Qed.

Lemma choose_lambda_keeps_other_attributes lambdas n_folds n_iter :
  keeps_other_attributes (choose_lambda Env cross_validation lambdas n_folds n_iter).
Proof.
  unfold choose_lambda, choose_lambda_errors.
  apply keeps_other_attributes_bind; [| intros; apply keeps_other_attributes_lift].
  apply keeps_other_attributes_bind; [apply keeps_other_attributes_lift |].
  intros ei. apply candidates_keeps_other_attributes.
Qed.

End CrossValidationAttributes.

(** C9. [choose_lambda] assigns no attribute.  With the cross-validation
    of the specification, which reads the two arrays it is handed, the
    instance after any call, returned or raised, is the instance before
    it: [k_pot], [sampled_pots], [elec_pos] and [lambd] hold the same
    values.  With any [cross_validation] whatever, every attribute other
    than the two arrays, [elec_pos] and [lambd] among them, holds the same
    value after the call. *)
Theorem choose_lambda_keeps_state (Env : Type)
  (fold_error : Env -> Qc -> attr -> attr -> nat -> Z -> result Qc * Env)
  (cross_validation : Env -> Qc -> attr -> attr -> nat -> Z -> cv_outcome Env)
  (lambdas : vec) (n_folds n_iter : Z) (env : Env) (self : obj) :
  let self' :=
    snd (snd (choose_lambda Env (spec_cross_validation Env fold_error)
                lambdas n_folds n_iter (env, self))) in
  let self'' :=
    snd (snd (choose_lambda Env cross_validation lambdas n_folds n_iter (env, self))) in
  (self' = self /\
   self' !! "k_pot" = self !! "k_pot" /\
   self' !! "sampled_pots" = self !! "sampled_pots" /\
   self' !! "elec_pos" = self !! "elec_pos" /\
   self' !! "lambd" = self !! "lambd") /\
  (self'' !! "elec_pos" = self !! "elec_pos" /\
   self'' !! "lambd" = self !! "lambd" /\
   forall name, name <> "sampled_pots" -> name <> "k_pot" ->
                self'' !! name = self !! name).
Proof.
  intros self' self''. split.
  - assert (H : self' = self).
    { apply choose_lambda_keeps_self. apply spec_cross_validation_reads_only. }
    rewrite H. auto.
  - pose proof (choose_lambda_keeps_other_attributes Env cross_validation
                  lambdas n_folds n_iter env self) as H.
    split; [| split]; [apply H; done | apply H; done | exact H].
Qed.

(** A cross-validation that overwrites the kernel it is handed, for the
    second part. *)
Lemma choose_lambda_keeps_state_witness :
  let writes := fun (calls : nat) (lambd : Qc) (pots k_pot : attr) (n : nat)
                    (n_folds : Z) =>
                  mk_cv_outcome (Ok lambd) (S calls) pots (AMat []) in
  let self' :=
    snd (snd (choose_lambda nat (spec_cross_validation nat sample_fold_error)
                default_lambdas 2 3 (O, sample_instance 8))) in
  let self'' :=
    snd (snd (choose_lambda nat writes default_lambdas 2 3 (O, sample_instance 8))) in
  (self' = sample_instance 8 /\
   self' !! "k_pot" = sample_instance 8 !! "k_pot" /\
   self' !! "sampled_pots" = sample_instance 8 !! "sampled_pots" /\
   self' !! "elec_pos" = sample_instance 8 !! "elec_pos" /\
   self' !! "lambd" = sample_instance 8 !! "lambd") /\
  (self'' !! "elec_pos" = sample_instance 8 !! "elec_pos" /\
   self'' !! "lambd" = sample_instance 8 !! "lambd" /\
   forall name, name <> "sampled_pots" -> name <> "k_pot" ->
                self'' !! name = sample_instance 8 !! name).
Proof.
  intros writes.
  exact (choose_lambda_keeps_state nat sample_fold_error writes default_lambdas 2 3 O
           (sample_instance 8)).
Defined.

Section CrossValidationLoops.

Variable Env : Type.
Variable cross_validation : Env -> Qc -> attr -> attr -> nat -> Z -> cv_outcome Env.







End CrossValidationLoops.

Section CrossValidationReports.

Variable Env : Type.
Variable cross_validation : Env -> Qc -> attr -> attr -> nat -> Z -> cv_outcome Env.
Variables (self : obj) (elec_pos : attr) (N : nat).
Hypothesis Ha : self !! "elec_pos" = Some elec_pos.
Hypothesis HN : shape0 elec_pos = Ok N.


Lemma with_arrays_again (st st' : Env * (attr * attr)) :
  with_arrays Env (snd (with_arrays Env self st)) st' = with_arrays Env self st'.
Proof.
  destruct st as [env [p k]], st' as [env' [p' k']]. unfold with_arrays. simpl.
  f_equal. rewrite (insert_insert_ne _ "sampled_pots" "k_pot") by done.
  rewrite insert_insert_eq. now rewrite insert_insert_eq.
Qed.




End CrossValidationReports.





Lemma descendingb_sound (l : vec) : descendingb l = true -> descending l.
Proof.
  induction l as [| a l IH]; intros H i k x y Hik Hi Hk.
  - done.
  - assert (Hl : descending l).
    { apply IH. destruct l; [done |]. simpl in H. now apply andb_prop in H as [_ ?]. }
    assert (Hhead : forall j z, l !! j = Some z -> z < a).
    { intros j. revert Hl H. clear. revert a.
      induction j as [| j IHj]; intros a Hl H z Hz.
      - destruct l as [| b l]; [done |]. simpl in *. injection Hz as <-.
        apply andb_prop in H as [H _]. now apply bool_decide_eq_true in H.
      - destruct l as [| b l]; [done |]. simpl in Hz.
        apply (Qclt_trans _ b).
        + destruct j as [| j].
          * apply (Hl 0%nat 1%nat b z); [lia | done | done].
          * apply (Hl 0%nat (S (S j)) b z); [lia | done | done].
        + simpl in H. apply andb_prop in H as [H _].
          now apply bool_decide_eq_true in H. }
    destruct i as [| i]; destruct k as [| k]; try lia; simpl in *.
    + injection Hi as <-. eapply Hhead; eauto.
    + apply (Hl i k); [lia | done | done].
Qed.

Lemma default_lambdas_descending : descending default_lambdas.
Proof. apply descendingb_sound. vm_compute. reflexivity. Qed.



(** C7 as stated fails: a fold count of 0 is below 1, yet with no
    candidate the call raises the [ValueError] of [min] on an empty
    sequence, with no iteration the [IndexError] of indexing an empty
    selection, and on an instance without [k_pot] an [AttributeError];
    in none of the three the fold count reaches [cross_validation]. *)
Lemma choose_lambda_zero_folds_other_errors :
  let cv := spec_cross_validation nat sample_fold_error in
  (0 < 1)%Z /\
  fst (choose_lambda nat cv [] 0 1 (O, sample_instance 8)) = Err ValueError /\
  fst (choose_lambda nat cv default_lambdas 0 0 (O, sample_instance 8))
  = Err IndexError /\
  fst (choose_lambda nat cv default_lambdas 0 1
         (O, delete "k_pot" (sample_instance 8))) = Err AttributeError /\
  Err ValueError <> @Err Qc InvalidFoldCountError /\
  Err IndexError <> @Err Qc InvalidFoldCountError /\
  Err AttributeError <> @Err Qc InvalidFoldCountError.
Proof.
  intros cv. split; [lia |].
  split; [reflexivity |]. split; [vm_compute; reflexivity |].
  split; [vm_compute; reflexivity |]. repeat split; discriminate.
Qed.

(** C7, amended.  With at least one candidate, at least one iteration
    and the attributes [sampled_pots], [k_pot] and [elec_pos] set, a call
    of [choose_lambda] with a fold count below 1 or above the number of
    electrodes raises [InvalidFoldCountError]: the first call of the
    cross-validation of the specification raises it, and the instance is
    as it was. *)
Theorem choose_lambda_raises_fold_error (Env : Type)
  (fold_error : Env -> Qc -> attr -> attr -> nat -> Z -> result Qc * Env)
  (lambdas : vec) (n_folds n_iter : Z) (env : Env) (self : obj)
  (pots k_pot elec_pos : attr) (N : nat) :
  lambdas <> [] -> (1 <= n_iter)%Z ->
  self !! "sampled_pots" = Some pots ->
  self !! "k_pot" = Some k_pot ->
  self !! "elec_pos" = Some elec_pos -> shape0 elec_pos = Ok N ->
  (n_folds < 1 \/ Z.of_nat N < n_folds)%Z ->
  choose_lambda Env (spec_cross_validation Env fold_error) lambdas n_folds n_iter
    (env, self)
  = (Err InvalidFoldCountError, (env, self)).
Proof.
  intros Hne Hiter Hp Hk He HN Hbad.
  destruct lambdas as [| l ls]; [done |].
  unfold choose_lambda, choose_lambda_errors. unfold bind at 1 2.
  unfold lift at 1, np_zeros. rewrite decide_False by lia.
  destruct (Z.to_nat n_iter) as [| k] eqn:Hn; [lia |].
  cbn [length seq zip_with candidates iterations]. rewrite Hn.
  cbn [seq iterations]. unfold bind at 1 2.
  assert (Hcall : cv_call Env (spec_cross_validation Env fold_error) l n_folds (env, self)
                  = (Err InvalidFoldCountError, (env, self))).
  { unfold cv_call, on_self, bind, getattr, lift. rewrite Hp, Hk, He, HN.
    unfold spec_cross_validation. rewrite decide_True by done. simpl.
    rewrite (insert_id self "sampled_pots" pots Hp).
    now rewrite (insert_id self "k_pot" k_pot Hk). }
  now rewrite Hcall.
Qed.

Lemma choose_lambda_raises_fold_error_witness :
  choose_lambda nat (spec_cross_validation nat sample_fold_error) default_lambdas 5 3
    (O, sample_instance 8)
  = (Err InvalidFoldCountError, (O, sample_instance 8)).
Proof.
  apply (choose_lambda_raises_fold_error nat sample_fold_error default_lambdas 5 3 O
           (sample_instance 8) (AVec sample_pots) (AMat (identity 4))
           (APos sample_electrodes) 4); try reflexivity; try discriminate; lia.
Defined.

(** * Further properties of the class *)

(** ** Step profile *)

(** The radius enters [step_rescale] through its square only: a negative
    radius is not rejected, it gives the profile of its absolute value. *)
Theorem step_rescale_negative_radius (xp yp zp R : Qc) :
  step_rescale xp yp zp (- R) = step_rescale xp yp zp R.
Proof.
  unfold step_rescale. rewrite !Qc_square.
  replace (- R * - R) with (R * R) by ring. reflexivity.
Qed.

(** [step_rescale] is even in each coordinate and does not tell [xp]
    from [yp]. *)
Theorem step_rescale_symmetric (xp yp zp R : Qc) :
  step_rescale (- xp) yp zp R = step_rescale xp yp zp R /\
  step_rescale xp (- yp) zp R = step_rescale xp yp zp R /\
  step_rescale xp yp (- zp) R = step_rescale xp yp zp R /\
  step_rescale yp xp zp R = step_rescale xp yp zp R.
Proof.
  unfold step_rescale. rewrite !Qc_square. repeat split.
  - now replace (- xp * - xp) with (xp * xp) by ring.
  - now replace (- yp * - yp) with (yp * yp) by ring.
  - now replace (- zp * - zp) with (zp * zp) by ring.
  - now replace (yp * yp + xp * xp + zp * zp) with (xp * xp + yp * yp + zp * zp)
      by ring.
Qed.




(** ** Bounds assigned by [set_parameters] *)

Lemma foldl_Qc_max_spec (x : Qc) (xs : vec) :
  let r := foldl Qc_max x xs in
  x <= r /\ (forall y, y ∈ xs -> y <= r) /\ (r = x \/ r ∈ xs).
Proof.
  revert x. induction xs as [| y xs IH]; intros x; simpl.
  - split; [apply Qcle_refl |]. split; [| by left].
    intros y Hy. by apply elem_of_nil in Hy.
  - destruct (IH (Qc_max x y)) as (H1 & H2 & H3).
    assert (Hx : x <= Qc_max x y).
    { unfold Qc_max. case_decide; [done | apply Qcle_refl]. }
    assert (Hy : y <= Qc_max x y).
    { unfold Qc_max. case_decide as Hc; [apply Qcle_refl |].
      apply Qclt_le_weak. now apply Qcnot_le_lt. }
    split; [eapply Qcle_trans; eauto |]. split.
    + intros z Hz. apply elem_of_cons in Hz as [-> | Hz]; [| auto].
      eapply Qcle_trans; eauto.
    + destruct H3 as [H3 | H3]; [| right; by right].
      rewrite H3. unfold Qc_max. case_decide; [right; left | left]; done.
Qed.

Lemma foldl_Qc_min_spec (x : Qc) (xs : vec) :
  let r := foldl Qc_min x xs in
  r <= x /\ (forall y, y ∈ xs -> r <= y) /\ (r = x \/ r ∈ xs).
Proof.
  revert x. induction xs as [| y xs IH]; intros x; simpl.
  - split; [apply Qcle_refl |]. split; [| by left].
    intros y Hy. by apply elem_of_nil in Hy.
  - destruct (IH (Qc_min x y)) as (H1 & H2 & H3).
    assert (Hx : Qc_min x y <= x).
    { unfold Qc_min. case_decide; [done | apply Qcle_refl]. }
    assert (Hy : Qc_min x y <= y).
    { unfold Qc_min. case_decide as Hc; [apply Qcle_refl |].
      apply Qclt_le_weak. now apply Qcnot_le_lt. }
    split; [eapply Qcle_trans; eauto |]. split.
    + intros z Hz. apply elem_of_cons in Hz as [-> | Hz]; [| auto].
      eapply Qcle_trans; eauto.
    + destruct H3 as [H3 | H3]; [| right; by right].
      rewrite H3. unfold Qc_min. case_decide; [right; left | left]; done.
Qed.

Lemma np_max_is_max (v : vec) (m : Qc) : np_max v = Ok m -> is_max v m.
Proof.
  destruct v as [| x xs]; [discriminate |]. intros [= <-].
  destruct (foldl_Qc_max_spec x xs) as (H1 & H2 & H3). split.
  - destruct H3 as [-> | H3]; [left | by right].
  - intros y Hy. apply elem_of_cons in Hy as [-> | Hy]; auto.
Qed.

Lemma np_min_is_min (v : vec) (m : Qc) : np_min v = Ok m -> is_min v m.
Proof.
  destruct v as [| x xs]; [discriminate |]. intros [= <-].
  destruct (foldl_Qc_min_spec x xs) as (H1 & H2 & H3). split.
  - destruct H3 as [-> | H3]; [left | by right].
  - intros y Hy. apply elem_of_cons in Hy as [-> | Hy]; auto.
Qed.

Lemma elec_max_is_max (coord : pos3 -> Qc) (p : list pos3) (self : obj) :
  self !! "elec_pos" = Some (APos p) -> p <> [] ->
  exists m, is_max (map coord p) m /\ elec_max coord self = (Ok (PFloat m), self).
Proof.
  intros Hp Hne. unfold elec_max.
  destruct (np_max_nonempty (map coord p)) as [m Hm]; [by destruct p |].
  exists m. split; [now apply np_max_is_max |].
  rewrite (bind_ok _ _ _ _ _ (getattr_some _ _ _ Hp)).
  unfold bind, lift, ret. simpl. now rewrite Hm.
Qed.

Lemma elec_min_is_min (coord : pos3 -> Qc) (p : list pos3) (self : obj) :
  self !! "elec_pos" = Some (APos p) -> p <> [] ->
  exists m, is_min (map coord p) m /\ elec_min coord self = (Ok (PFloat m), self).
Proof.
  intros Hp Hne. unfold elec_min.
  destruct (np_min_nonempty (map coord p)) as [m Hm]; [by destruct p |].
  exists m. split; [now apply np_min_is_min |].
  rewrite (bind_ok _ _ _ _ _ (getattr_some _ _ _ Hp)).
  unfold bind, lift, ret. simpl. now rewrite Hm.
Qed.

Ltac step_elec_spec p :=
  match goal with
  | |- context [bind (elec_max ?c) _ ?s] =>
      let m := fresh "m" in
      let Hm := fresh "Hm" in
      let H := fresh "H" in
      destruct (elec_max_is_max c p s) as (m & Hm & H);
      [solve_lookup | done | rewrite (bind_ok _ _ _ _ _ H); clear H]
  | |- context [bind (elec_min ?c) _ ?s] =>
      let m := fresh "m" in
      let Hm := fresh "Hm" in
      let H := fresh "H" in
      destruct (elec_min_is_min c p s) as (m & Hm & H);
      [solve_lookup | done | rewrite (bind_ok _ _ _ _ _ H); clear H]
  end.

Lemma param_or_default_get (params : gmap string pyval) (key : string)
  (P : Qc -> Prop) (m : Qc) :
  P m -> param_or_default params key P (Some (AVal (dict_get params key (PFloat m)))).
Proof.
  intros Hm. unfold param_or_default, dict_get.
  destruct (params !! key); [done | eauto].
Qed.

(** Whatever else happens in [set_parameters], each of the six bounds it
    assigns is the value given in [params], and without one the largest
    (smallest) coordinate of the electrodes on that axis: a coordinate of
    some electrode that bounds the coordinates of all of them. *)
Theorem bounds_default_to_electrode_extremes (params : gmap string pyval)
  (p : list pos3) (self : obj) :
  self !! "elec_pos" = Some (APos p) -> p <> [] ->
  let self' := snd (set_parameters params self) in
  param_or_default params "x_max" (is_max (map px p)) (self' !! "xmax") /\
  param_or_default params "x_min" (is_min (map px p)) (self' !! "xmin") /\
  param_or_default params "y_max" (is_max (map py p)) (self' !! "ymax") /\
  param_or_default params "y_min" (is_min (map py p)) (self' !! "ymin") /\
  param_or_default params "z_max" (is_max (map pz p)) (self' !! "zmax") /\
  param_or_default params "z_min" (is_min (map pz p)) (self' !! "zmin").
Proof.
  intros Hp Hne self'. subst self'. unfold set_parameters.
  do 2 step_setattr.
  do 6 (step_elec_spec p; step_setattr).
  step_setattr.
  erewrite (bind_ok (getattr "elec_pos")); [| apply getattr_some; solve_lookup].
  erewrite (bind_err (lift _)) by reflexivity. cbn [snd].
  repeat split;
    (repeat (rewrite lookup_insert_ne by done)); rewrite lookup_insert_eq;
    now apply param_or_default_get.
Qed.

Lemma bounds_default_to_electrode_extremes_witness :
  let self : obj := <["elec_pos" := APos sample_electrodes]> ∅ in
  let params : gmap string pyval := {["z_max" := PInt 5]} in
  let self' := snd (set_parameters params self) in
  param_or_default params "x_max" (is_max (map px sample_electrodes)) (self' !! "xmax") /\
  param_or_default params "x_min" (is_min (map px sample_electrodes)) (self' !! "xmin") /\
  param_or_default params "y_max" (is_max (map py sample_electrodes)) (self' !! "ymax") /\
  param_or_default params "y_min" (is_min (map py sample_electrodes)) (self' !! "ymin") /\
  param_or_default params "z_max" (is_max (map pz sample_electrodes)) (self' !! "zmax") /\
  param_or_default params "z_min" (is_min (map pz sample_electrodes)) (self' !! "zmin").
Proof.
  intros self params.
  apply (bounds_default_to_electrode_extremes params sample_electrodes self);
    [reflexivity | discriminate].
Defined.

(** ** Kernel matrices *)

Lemma getmat_inv (name : string) (self self' : obj) (A : matrix) :
  getmat name self = (Ok A, self') -> self' = self /\ self !! name = Some (AMat A).
Proof.
  unfold getmat, bind, getattr, lift.
  destruct (self !! name) as [[] |]; simpl; intros [= <- <-]; done.
Qed.

(** [calculate_matrices] creates none of the three basis matrices, its
    builders being stubs: whenever it returns, [b_pot_matrix],
    [b_src_matrix] and [b_interp_pot_matrix] were attributes of the
    instance before the call; without [b_pot_matrix] it raises
    [AttributeError] and leaves the instance as it was. *)
Theorem calculate_matrices_needs_basis_matrices (self : obj) :
  (self !! "b_pot_matrix" = None ->
   calculate_matrices self = (Err AttributeError, self)) /\
  (fst (calculate_matrices self) = Ok tt ->
   is_Some (self !! "b_pot_matrix") /\ is_Some (self !! "b_src_matrix") /\
   is_Some (self !! "b_interp_pot_matrix")).
Proof.
  split.
  - intros Hnone. unfold calculate_matrices, create_dist_table,
      calculate_b_pot_matrix, calculate_b_pot_matrix_3D.
    do 2 (erewrite (bind_ok (ret tt)) by reflexivity).
    erewrite (bind_err (getmat _)); [done |].
    unfold getmat. erewrite (bind_err (getattr _)); [done |].
    now apply getattr_none.
  - destruct (calculate_matrices self) as [r self'] eqn:H. simpl. intros ->.
    unfold calculate_matrices, create_dist_table, calculate_b_pot_matrix,
      calculate_b_pot_matrix_3D, calculate_b_src_matrix, make_b_src_matrix_3D,
      calculate_b_interp_pot_matrix, make_b_interp_pot_matrix_3D in H.
    do 2 (erewrite (bind_ok (ret tt)) in H by reflexivity).
    apply bind_inv in H as (B & s1 & H1 & H). apply getmat_inv in H1 as [-> HB].
    apply bind_inv in H as (B' & s1 & H1 & H). apply getmat_inv in H1 as [-> _].
    apply bind_inv in H as (K & s1 & H1 & H). apply lift_inv in H1 as [_ ->].
    erewrite (bind_ok (setattr _ _)) in H by reflexivity.
    erewrite (bind_ok (ret tt)) in H by reflexivity.
    apply bind_inv in H as (Bs & s1 & H1 & H). apply getmat_inv in H1 as [-> HBs].
    apply bind_inv in H as (B2 & s1 & H1 & H). apply getmat_inv in H1 as [-> _].
    apply bind_inv in H as (K2 & s1 & H1 & H). apply lift_inv in H1 as [_ ->].
    erewrite (bind_ok (setattr _ _)) in H by reflexivity.
    erewrite (bind_ok (ret tt)) in H by reflexivity.
    apply bind_inv in H as (Bi & s1 & H1 & H). apply getmat_inv in H1 as [-> HBi].
    rewrite lookup_insert_ne in HBs by done.
    do 2 rewrite lookup_insert_ne in HBi by done.
    rewrite HB, HBs, HBi. eauto.
Qed.

Lemma np_dot_mm_entry (A B M : matrix) (i j : nat) :
  np_dot_mm A B = Ok M -> (i < length A)%nat -> (j < length (hd [] B))%nat ->
  entry M i j = Some (spec_mat_mul_entry A B i j).
Proof.
  unfold np_dot_mm. case_decide as Hrows; [| discriminate]. intros [= <-] Hi Hj.
  destruct (lookup_lt_is_Some_2 A i Hi) as [row Hrow].
  unfold entry. rewrite map_fmap, list_lookup_fmap, Hrow. simpl.
  destruct B as [| r0 B']; simpl in Hj; [lia |].
  unfold transpose. rewrite !map_fmap, list_lookup_fmap.
  rewrite list_lookup_fmap, lookup_seq_lt by done.
  cbn [fmap option_fmap option_map Nat.add]. f_equal.
  assert (Hlen : length row = length (r0 :: B')).
  { eapply (proj1 (Forall_lookup _ _) Hrows); eauto. }
  rewrite dotp_sum_to by now rewrite length_map.
  unfold spec_mat_mul_entry. rewrite Hlen. apply sum_to_ext. intros k.
  rewrite nth_column. f_equal. f_equal. symmetry. now apply nth_lookup_Some.
Qed.

(** With the three basis matrices set and as many columns in
    [b_src_matrix] and [b_interp_pot_matrix] as [b_pot_matrix] has rows,
    [calculate_matrices] returns, the two cross kernels are the matrix
    products [b_src_matrix . b_pot_matrix] and
    [b_interp_pot_matrix . b_pot_matrix] entry by entry, and no attribute
    other than the three kernels changes. *)
Theorem calculate_matrices_cross_kernels (self : obj) (B Bs Bi : matrix) :
  self !! "b_pot_matrix" = Some (AMat B) ->
  self !! "b_src_matrix" = Some (AMat Bs) ->
  self !! "b_interp_pot_matrix" = Some (AMat Bi) ->
  Forall (fun row => length row = length B) Bs ->
  Forall (fun row => length row = length B) Bi ->
  exists (self' : obj) (Kc Ki : matrix),
    calculate_matrices self = (Ok tt, self') /\
    self' !! "k_interp_cross" = Some (AMat Kc) /\
    self' !! "interp_pot" = Some (AMat Ki) /\
    (forall i j, (i < length Bs)%nat -> (j < length (hd [] B))%nat ->
                 entry Kc i j = Some (spec_mat_mul_entry Bs B i j)) /\
    (forall i j, (i < length Bi)%nat -> (j < length (hd [] B))%nat ->
                 entry Ki i j = Some (spec_mat_mul_entry Bi B i j)) /\
    (forall name, name <> "k_pot" -> name <> "k_interp_cross" ->
                  name <> "interp_pot" -> self' !! name = self !! name).
Proof.
  intros HB HBs HBi Hs Hi.
  destruct (np_dot_mm Bs B) as [Kc | e] eqn:Ec.
  2: { unfold np_dot_mm in Ec. now rewrite decide_True in Ec. }
  destruct (np_dot_mm Bi B) as [Ki | e] eqn:Ei.
  2: { unfold np_dot_mm in Ei. now rewrite decide_True in Ei. }
  eexists _, Kc, Ki. split; [| split; [| split; [| split; [| split]]]].
  - unfold calculate_matrices, create_dist_table, calculate_b_pot_matrix,
      calculate_b_pot_matrix_3D, calculate_b_src_matrix, make_b_src_matrix_3D,
      calculate_b_interp_pot_matrix, make_b_interp_pot_matrix_3D.
    do 2 (erewrite (bind_ok (ret tt)) by reflexivity).
    do 2 rewrite (bind_ok _ _ _ _ _ (getmat_some _ _ _ HB)).
    erewrite (bind_ok (lift _)).
    2: { unfold lift, np_dot_mm. rewrite decide_True by apply transpose_row_length.
         reflexivity. }
    step_setattr. erewrite (bind_ok (ret tt)) by reflexivity.
    erewrite (bind_ok (getmat "b_src_matrix"));
      [| apply getmat_some; solve_lookup].
    erewrite (bind_ok (getmat "b_pot_matrix"));
      [| apply getmat_some; solve_lookup].
    erewrite (bind_ok (lift _)) by (unfold lift; now rewrite Ec).
    step_setattr. erewrite (bind_ok (ret tt)) by reflexivity.
    erewrite (bind_ok (getmat "b_interp_pot_matrix"));
      [| apply getmat_some; solve_lookup].
    erewrite (bind_ok (getmat "b_pot_matrix"));
      [| apply getmat_some; solve_lookup].
    erewrite (bind_ok (lift _)) by (unfold lift; now rewrite Ei).
    reflexivity.
  - rewrite lookup_insert_ne by done. apply lookup_insert_eq.
  - apply lookup_insert_eq.
  - intros i j Hi' Hj. now apply (np_dot_mm_entry Bs B).
  - intros i j Hi' Hj. now apply (np_dot_mm_entry Bi B).
  - intros name H1 H2 H3. now rewrite !lookup_insert_ne by done.
Qed.

Lemma calculate_matrices_needs_basis_matrices_witness :
  (∅ : obj) !! "b_pot_matrix" = None /\
  calculate_matrices ∅ = (Err AttributeError, ∅).
Proof.
  assert (H : (∅ : obj) !! "b_pot_matrix" = None) by reflexivity.
  split; [exact H |].
  exact (proj1 (calculate_matrices_needs_basis_matrices ∅) H).
Defined.

Lemma calculate_matrices_cross_kernels_witness :
  exists (self' : obj) (Kc Ki : matrix),
    calculate_matrices sample_basis = (Ok tt, self') /\
    self' !! "k_interp_cross" = Some (AMat Kc) /\
    self' !! "interp_pot" = Some (AMat Ki) /\
    (forall i j, (i < 2)%nat -> (j < 2)%nat ->
                 entry Kc i j =
                 Some (spec_mat_mul_entry [zs [1; 0; 0]%Z; zs [0; 1; 0]%Z]
                         [zs [1; 2]%Z; zs [3; 4]%Z; zs [5; 6]%Z] i j)) /\
    (forall i j, (i < 1)%nat -> (j < 2)%nat ->
                 entry Ki i j =
                 Some (spec_mat_mul_entry [zs [1; 1; 1]%Z]
                         [zs [1; 2]%Z; zs [3; 4]%Z; zs [5; 6]%Z] i j)) /\
    (forall name, name <> "k_pot" -> name <> "k_interp_cross" ->
                  name <> "interp_pot" -> self' !! name = sample_basis !! name).
Proof.
  apply (calculate_matrices_cross_kernels sample_basis
           [zs [1; 2]%Z; zs [3; 4]%Z; zs [5; 6]%Z]
           [zs [1; 0; 0]%Z; zs [0; 1; 0]%Z] [zs [1; 1; 1]%Z]);
    try reflexivity; repeat constructor.
Defined.

Lemma k_pot_is_gram_witness :
  exists K : matrix,
    snd (calculate_matrices sample_basis) !! "k_pot" = Some (AMat K) /\
    entry K 0 1 =
    Some (sum_to 3 (fun k =>
       nth 0 (nth k [zs [1; 2]%Z; zs [3; 4]%Z; zs [5; 6]%Z] []) 0 *
       nth 1 (nth k [zs [1; 2]%Z; zs [3; 4]%Z; zs [5; 6]%Z] []) 0)).
Proof.
  apply (k_pot_is_gram sample_basis [zs [1; 2]%Z; zs [3; 4]%Z; zs [5; 6]%Z] 0 1);
    [reflexivity | simpl; lia | simpl; lia].
Defined.

Lemma dotp_nil_r (u : vec) : dotp u [] = 0.
Proof. unfold dotp. now destruct u. Qed.

Lemma dotp_cons (a b : Qc) (u v : vec) :
  dotp (a :: u) (b :: v) = a * b + dotp u v.
Proof. reflexivity. Qed.

Lemma dotp_zeros (r : nat) (v : vec) : dotp (replicate r 0) v = 0.
Proof.
  revert v. induction r as [| r IH]; intros [| b v]; try done.
  simpl replicate. rewrite dotp_cons, IH. ring.
Qed.

Lemma dotp_vadd (a b v : vec) :
  length a = length b -> dotp (vadd a b) v = dotp a v + dotp b v.
Proof.
  revert b v. induction a as [| x a IH]; intros [| y b] v Hlen; simpl in Hlen;
    try done.
  destruct v as [| z v].
  - rewrite !dotp_nil_r. ring.
  - unfold vadd. simpl zip_with. rewrite !dotp_cons.
    fold (vadd a b). rewrite IH by lia. ring.
Qed.

Lemma dotp_scale (s : Qc) (a v : vec) : dotp (np_scale s a) v = s * dotp a v.
Proof.
  revert v. induction a as [| x a IH]; intros [| z v]; simpl np_scale.
  - change (0 = s * 0). ring.
  - change (0 = s * 0). ring.
  - rewrite !dotp_nil_r. ring.
  - rewrite !dotp_cons, IH. ring.
Qed.

Lemma lincomb_length (r : nat) (cols : matrix) (y : vec) :
  Forall (fun c => length c = r) cols -> length (lincomb r cols y) = r.
Proof.
  intros H. revert y. induction H as [| c cols Hc H IH]; intros y; simpl.
  - apply length_replicate.
  - destruct y as [| a y]; [apply length_replicate |].
    unfold vadd. rewrite length_zip_with. unfold np_scale.
    rewrite length_map, IH. lia.
Qed.

Lemma dotp_lincomb (r : nat) (cols : matrix) (y v : vec) :
  Forall (fun c => length c = r) cols ->
  dotp (lincomb r cols y) v = dotp y (map (fun c => dotp c v) cols).
Proof.
  intros H. revert y. induction H as [| c cols Hc H IH]; intros y; simpl.
  - now rewrite dotp_zeros, dotp_nil_r.
  - destruct y as [| a y]; [now rewrite dotp_zeros |].
    rewrite dotp_vadd.
    + rewrite dotp_scale, IH, dotp_cons. ring.
    + unfold np_scale. rewrite length_map, lincomb_length by done. done.
Qed.

Lemma Qc_square_nonneg (a : Qc) : 0 <= a * a.
Proof.
  destruct (Qclt_le_dec a 0) as [Hneg | Hpos].
  - replace (a * a) with (- a * - a) by ring.
    assert (H : 0 <= - a).
    { replace 0 with (- 0) by ring. apply Qcopp_le_compat. now apply Qclt_le_weak. }
    replace 0 with (0 * - a) at 1 by ring. now apply Qcmult_le_compat_r.
  - replace 0 with (0 * a) at 1 by ring. now apply Qcmult_le_compat_r.
Qed.

Lemma dotp_self_nonneg (w : vec) : 0 <= dotp w w.
Proof.
  induction w as [| a w IH]; [done |].
  rewrite dotp_cons. replace 0 with (0 + 0) by ring.
  apply Qcplus_le_compat; [apply Qc_square_nonneg | done].
Qed.

Lemma quad_form_gram (T : matrix) (r : nat) (y : vec) :
  Forall (fun c => length c = r) T ->
  quad_form (map (fun row => map (fun col => dotp row col) T) T) y =
  dotp (lincomb r T y) (lincomb r T y).
Proof.
  intros HT. unfold quad_form. rewrite map_map.
  rewrite (map_ext _ (fun c => dotp c (lincomb r T y))).
  - now rewrite <- (dotp_lincomb r T y) by done.
  - intros c. rewrite dotp_comm, (dotp_comm c).
    rewrite (dotp_lincomb r T y c) by done.
    f_equal. apply map_ext. intros c'. apply dotp_comm.
Qed.

(** The kernel matrix assigned by [calculate_matrices] is positive
    semi-definite: [y^T K_pot y >= 0] for every vector [y]. *)
Theorem k_pot_positive_semidefinite (self : obj) (B : matrix) :
  self !! "b_pot_matrix" = Some (AMat B) ->
  exists K : matrix,
    snd (calculate_matrices self) !! "k_pot" = Some (AMat K) /\
    forall y, 0 <= quad_form K y.
Proof.
  intros HB. eexists. split; [apply (calculate_matrices_k_pot _ _ HB) |].
  intros y. rewrite (quad_form_gram _ (length B)) by apply transpose_row_length.
  apply dotp_self_nonneg.
Qed.

Lemma k_pot_positive_semidefinite_witness :
  exists K : matrix,
    snd (calculate_matrices sample_basis) !! "k_pot" = Some (AMat K) /\
    forall y, 0 <= quad_form K y.
Proof.
  apply (k_pot_positive_semidefinite sample_basis
           [zs [1; 2]%Z; zs [3; 4]%Z; zs [5; 6]%Z]).
  reflexivity.
Defined.

(** The kernel matrix is square, with one row and one column per column
    of [b_pot_matrix]. *)
Theorem k_pot_square (self : obj) (B : matrix) :
  self !! "b_pot_matrix" = Some (AMat B) ->
  exists K : matrix,
    snd (calculate_matrices self) !! "k_pot" = Some (AMat K) /\
    length K = length (hd [] B) /\
    Forall (fun row => length row = length (hd [] B)) K.
Proof.
  intros HB. eexists. split; [apply (calculate_matrices_k_pot _ _ HB) |].
  assert (HT : length (transpose B) = length (hd [] B)).
  { destruct B; simpl; [done |]. now rewrite length_map, length_seq. }
  split; [now rewrite length_map |].
  apply List.Forall_forall. intros row Hin.
  apply in_map_iff in Hin as (c & <- & _). now rewrite length_map.
Qed.

Lemma k_pot_square_witness :
  exists K : matrix,
    snd (calculate_matrices sample_basis) !! "k_pot" = Some (AMat K) /\
    length K = 2%nat /\ Forall (fun row => length row = 2%nat) K.
Proof.
  apply (k_pot_square sample_basis [zs [1; 2]%Z; zs [3; 4]%Z; zs [5; 6]%Z]).
  reflexivity.
Defined.

(** ** Estimates *)

Lemma bind_readonly_cases {St A B} (m : M St A) (k : A -> M St B) (s : St) :
  readonly m ->
  (exists e, bind m k s = (Err e, s)) \/ (exists a, bind m k s = k a s).
Proof.
  intros Hm. specialize (Hm s). unfold bind.
  destruct (m s) as [[a | e] s']; simpl in Hm; subst; eauto.
Qed.

Ltac step_readonly name self :=
  match goal with
  | |- stores_result name self (bind ?m ?k self) =>
      let e := fresh "e" in
      let a := fresh "a" in
      let H := fresh "H" in
      destruct (bind_readonly_cases m k self) as [[e H] | [a H]];
      [ first [ apply estimate_pots_beta_readonly
              | apply estimate_csd_beta_readonly
              | auto with frame ]
      | rewrite H; reflexivity
      | rewrite H; clear H; cbn beta ]
  end.

Lemma estimate_pots_stores (np_linalg_inv : matrix -> result matrix) (self : obj) :
  stores_result "estimated_pots" self (estimate_pots np_linalg_inv self).
Proof.
  unfold estimate_pots.
  do 4 step_readonly "estimated_pots" self.
  match goal with d : (nat * nat * nat)%type |- _ => destruct d as [[nx ny] nz] end.
  do 5 step_readonly "estimated_pots" self.
  step_setattr.
  match goal with
  | |- context [<[_ := ANd ?r]> _] =>
      rewrite (bind_ok _ _ _ _ _ (getnd_some _ r _ (lookup_insert_eq _ _ _)))
  end.
  reflexivity.
Qed.

Lemma estimate_csd_stores (np_linalg_inv : matrix -> result matrix) (self : obj) :
  stores_result "estimated_csd" self (estimate_csd np_linalg_inv self).
Proof.
  unfold estimate_csd.
  do 4 step_readonly "estimated_csd" self.
  match goal with d : (nat * nat * nat)%type |- _ => destruct d as [[nx ny] nz] end.
  do 5 step_readonly "estimated_csd" self.
  step_setattr.
  match goal with
  | |- context [<[_ := ANd ?r]> _] =>
      rewrite (bind_ok _ _ _ _ _ (getnd_some _ r _ (lookup_insert_eq _ _ _)))
  end.
  reflexivity.
Qed.

(** [estimate_pots] and [estimate_csd] change the instance only by
    storing the array they return, under [estimated_pots] and
    [estimated_csd]; when they raise, the instance is as it was. *)
Theorem estimates_store_only_their_result (np_linalg_inv : matrix -> result matrix)
  (self : obj) :
  stores_result "estimated_pots" self (estimate_pots np_linalg_inv self) /\
  stores_result "estimated_csd" self (estimate_csd np_linalg_inv self).
Proof.
  split; [apply estimate_pots_stores | apply estimate_csd_stores].
Qed.

Lemma foldr_plus_acc (f : nat -> Qc) (c : Qc) (l : list nat) :
  foldr (fun j acc => f j + acc) c l = foldr (fun j acc => f j + acc) 0 l + c.
Proof.
  induction l as [| j l IH]; simpl; [ring |]. rewrite IH. ring.
Qed.

Lemma sum_to_S (n : nat) (f : nat -> Qc) : sum_to (S n) f = sum_to n f + f n.
Proof.
  unfold sum_to. rewrite seq_S, foldr_app. simpl.
  rewrite foldr_plus_acc. ring.
Qed.

Lemma partial_field_0 (beta : vec) (table : matrix) :
  partial_field beta table 0 = replicate (length table) 0.
Proof.
  unfold partial_field. induction table as [| row table IH]; simpl; [done |].
  now rewrite IH.
Qed.

Lemma partial_field_length (beta : vec) (table : matrix) (s : nat) :
  length (partial_field beta table s) = length table.
Proof. unfold partial_field. now rewrite length_map. Qed.

(** One turn of the loop adds the contribution of electrode [s]. *)
Lemma accumulate_partial_field (beta : vec) (table : matrix) (s : nat) :
  (s < length beta)%nat -> Forall (fun row => s < length row)%nat table ->
  accumulate beta table s (partial_field beta table s)
  = Ok (partial_field beta table (S s)).
Proof.
  intros Hs Hrows. unfold accumulate.
  destruct (lookup_lt_is_Some_2 beta s Hs) as [b Hb].
  unfold np_item. rewrite Hb. cbn [rbind].
  unfold np_col. rewrite decide_True by done. cbn [rbind].
  unfold np_iadd, np_scale.
  rewrite decide_True by (now rewrite !length_map, partial_field_length).
  f_equal. unfold partial_field. rewrite !map_fmap.
  rewrite <- list_fmap_compose, zip_with_fmap_l, zip_with_fmap_r, zip_with_diag.
  apply list_fmap_ext. intros _ row _. simpl.
  rewrite sum_to_S. f_equal. f_equal. symmetry. now apply nth_lookup_Some.
Qed.

(** The loop over the electrodes [s, ..., s+k-1]. *)
Lemma for_each_accumulate_partial_field (beta : vec) (table : matrix) (k s : nat) :
  (s + k <= length beta)%nat -> Forall (fun row => s + k <= length row)%nat table ->
  for_each (accumulate beta table) (seq s k) (partial_field beta table s)
  = Ok (partial_field beta table (s + k)).
Proof.
  revert s. induction k as [| k IH]; intros s Hs Hrows; simpl.
  - now rewrite Nat.add_0_r.
  - rewrite accumulate_partial_field; [| lia |].
    + cbn [rbind]. rewrite IH.
      * f_equal. f_equal. lia.
      * lia.
      * eapply List.Forall_impl; [| exact Hrows]. intros row Hrow. simpl in *. lia.
    + eapply List.Forall_impl; [| exact Hrows]. intros row Hrow. simpl in *. lia.
Qed.

Lemma nth_zeros (j n : nat) : nth j (replicate n (0 : Qc)) 0 = 0.
Proof. revert j. induction n as [| n IH]; intros [| j]; simpl; auto. Qed.

Lemma spec_mat_vec_zeros (n : nat) (A : matrix) :
  spec_mat_vec n A (replicate n 0) = replicate (length A) 0.
Proof.
  unfold spec_mat_vec. induction A as [| row A IH]; simpl; [done |].
  rewrite IH. f_equal. unfold sum_to.
  induction (seq 0 n) as [| j l IHl]; simpl; [done |].
  rewrite IHl, nth_zeros. ring.
Qed.

Lemma partial_field_zeros (m : nat) (table : matrix) (s : nat) :
  partial_field (replicate m 0) table s = replicate (length table) 0.
Proof.
  unfold partial_field. induction table as [| row table IH]; simpl; [done |].
  rewrite IH. f_equal. unfold sum_to.
  induction (seq 0 s) as [| j l IHl]; simpl; [done |].
  rewrite IHl, nth_zeros. ring.
Qed.

Section EstimateField.

Variable np_linalg_inv : matrix -> result matrix.
Variables (self : obj) (K K_inv table : matrix) (lv : pyval) (lam : Qc) (y : vec).
Variables (X : ndarray) (elec_pos : attr) (n nx ny nz : nat).

Hypothesis HK : self !! "k_pot" = Some (AMat K).
Hypothesis Hl : self !! "lambd" = Some (AVal lv).
Hypothesis Hlam : py_float lv = Ok lam.
Hypothesis Hy : self !! "sampled_pots" = Some (AVec y).
Hypothesis HX : self !! "space_X" = Some (ANd X).
Hypothesis Hshape : shape X = [nx; ny; nz].
Hypothesis He : self !! "elec_pos" = Some elec_pos.
Hypothesis HN : shape0 elec_pos = Ok n.
Hypothesis HKn : length K = n.
Hypothesis HKrows : Forall (fun row => length row = n) K.
Hypothesis Hyn : length y = n.
Hypothesis Hinv : np_linalg_inv (spec_regularized K lam) = Ok K_inv.
Hypothesis Hinvn : length K_inv = n.
Hypothesis Hinvrows : Forall (fun row => length row = n) K_inv.
Hypothesis Htable : length table = (nx * ny)%nat.
Hypothesis Htrows : Forall (fun row => n <= length row)%nat table.

Lemma estimate_loop_run :
  for_each (accumulate (spec_mat_vec n K_inv y) table) (seq 0 n)
    (replicate (Z.to_nat (Z.of_nat (nx * ny))) 0)
  = Ok (partial_field (spec_mat_vec n K_inv y) table n).
Proof using All.
  rewrite Nat2Z.id, <- Htable.
  rewrite <- (partial_field_0 (spec_mat_vec n K_inv y) table).
  rewrite for_each_accumulate_partial_field; [done | |].
  - unfold spec_mat_vec. rewrite length_map. simpl. lia.
  - simpl. exact Htrows.
Qed.

Lemma beta_pots_run :
  estimate_pots_beta np_linalg_inv self = (Ok (spec_mat_vec n K_inv y), self).
Proof using All.
  rewrite (estimate_pots_beta_run np_linalg_inv self K lv lam y n); try done.
  - unfold spec_solve. now rewrite Hinv, HKn.
  - intros K' HK'. rewrite Hinv in HK'. now injection HK' as <-.
Qed.

Lemma beta_csd_run :
  estimate_csd_beta np_linalg_inv self = (Ok (spec_mat_vec n K_inv y), self).
Proof using All.
  rewrite (estimate_csd_beta_run np_linalg_inv self K lv lam y n); try done.
  - unfold spec_solve. now rewrite Hinv, HKn.
  - intros K' HK'. rewrite Hinv in HK'. now injection HK' as <-.
Qed.

(** On a well-shaped instance whose table [interp_pot] has [nx*ny] rows,
    [estimate_pots] returns, and stores in [estimated_pots], the array of
    shape [(nx, ny)] holding at each point [g] the sum over the
    electrodes of [beta[i] * interp_pot[g, i]], [beta] being the weights
    [(K_pot + lam I)^-1 sampled_pots]. *)
Theorem estimate_pots_field :
  self !! "interp_pot" = Some (AMat table) ->
  let field :=
    mk_ndarray [nx; ny] (partial_field (spec_mat_vec n K_inv y) table n) in
  estimate_pots np_linalg_inv self
  = (Ok field, <["estimated_pots" := ANd field]> self).
Proof using All.
  intros Ht field. unfold estimate_pots.
  rewrite (bind_ok _ _ _ _ _ (getmat_some _ _ _ Ht)).
  rewrite (bind_ok _ _ _ _ _ beta_pots_run).
  rewrite (bind_ok _ _ _ _ _ (getnd_some _ _ _ HX)).
  rewrite Hshape. erewrite (bind_ok (lift _)) by reflexivity. cbn beta iota.
  erewrite (bind_ok (lift _)).
  2: { unfold lift, np_zeros. rewrite decide_False by lia. reflexivity. }
  rewrite (bind_ok _ _ _ _ _ (getattr_some _ _ _ He)).
  erewrite (bind_ok (lift _)) by (unfold lift; now rewrite HN).
  erewrite (bind_ok (lift _)) by (unfold lift; now rewrite estimate_loop_run).
  erewrite (bind_ok (lift _)).
  2: { unfold lift, np_reshape. rewrite decide_True; [reflexivity |].
       rewrite partial_field_length, Htable. simpl. lia. }
  step_setattr.
  rewrite (bind_ok _ _ _ _ _ (getnd_some _ field _ (lookup_insert_eq _ _ _))).
  reflexivity.
Qed.

(** On a well-shaped instance with a flat grid ([nz = 1]) whose table
    [k_interp_cross] has [nx*ny] rows, [estimate_csd] returns, and stores
    in [estimated_csd], the array of shape [(nx, ny, 1)] holding at each
    point [g] the sum over the electrodes of
    [beta[i] * k_interp_cross[g, i]]. *)
Theorem estimate_csd_field :
  self !! "k_interp_cross" = Some (AMat table) -> nz = 1%nat ->
  let field :=
    mk_ndarray [nx; ny; 1%nat] (partial_field (spec_mat_vec n K_inv y) table n) in
  estimate_csd np_linalg_inv self
  = (Ok field, <["estimated_csd" := ANd field]> self).
Proof using All.
  intros Ht Hnz field. unfold estimate_csd.
  rewrite (bind_ok _ _ _ _ _ (getmat_some _ _ _ Ht)).
  rewrite (bind_ok _ _ _ _ _ beta_csd_run).
  rewrite (bind_ok _ _ _ _ _ (getnd_some _ _ _ HX)).
  rewrite Hshape, Hnz. erewrite (bind_ok (lift _)) by reflexivity. cbn beta iota.
  erewrite (bind_ok (lift _)).
  2: { unfold lift, np_zeros. rewrite decide_False by lia. reflexivity. }
  rewrite (bind_ok _ _ _ _ _ (getattr_some _ _ _ He)).
  erewrite (bind_ok (lift _)) by (unfold lift; now rewrite HN).
  erewrite (bind_ok (lift _)) by (unfold lift; now rewrite estimate_loop_run).
  erewrite (bind_ok (lift _)).
  2: { unfold lift, np_reshape. rewrite decide_True; [reflexivity |].
       rewrite partial_field_length, Htable. simpl. lia. }
  step_setattr.
  rewrite (bind_ok _ _ _ _ _ (getnd_some _ field _ (lookup_insert_eq _ _ _))).
  reflexivity.
Qed.

(** Potentials that are all zero give a potential field that is zero at
    every grid point, whatever inverse [np.linalg.inv] returns. *)
Theorem zero_potentials_zero_field :
  self !! "interp_pot" = Some (AMat table) -> y = replicate n 0 ->
  fst (estimate_pots np_linalg_inv self)
  = Ok (mk_ndarray [nx; ny] (replicate (nx * ny) 0)).
Proof using All.
  intros Ht Hzero. unfold estimate_pots.
  rewrite (bind_ok _ _ _ _ _ (getmat_some _ _ _ Ht)).
  rewrite (bind_ok _ _ _ _ _ beta_pots_run).
  rewrite (bind_ok _ _ _ _ _ (getnd_some _ _ _ HX)).
  rewrite Hshape. erewrite (bind_ok (lift _)) by reflexivity. cbn beta iota.
  erewrite (bind_ok (lift _)).
  2: { unfold lift, np_zeros. rewrite decide_False by lia. reflexivity. }
  rewrite (bind_ok _ _ _ _ _ (getattr_some _ _ _ He)).
  erewrite (bind_ok (lift _)) by (unfold lift; now rewrite HN).
  erewrite (bind_ok (lift _)) by (unfold lift; now rewrite estimate_loop_run).
  rewrite Hzero, spec_mat_vec_zeros, partial_field_zeros, Htable.
  erewrite (bind_ok (lift _)).
  2: { unfold lift, np_reshape. rewrite decide_True; [reflexivity |].
       rewrite length_replicate. simpl. lia. }
  step_setattr.
  erewrite (bind_ok (getnd _)) by (apply getnd_some; apply lookup_insert_eq).
  reflexivity.
Qed.

End EstimateField.

Lemma estimate_pots_field_witness :
  let field :=
    mk_ndarray [2; 2]%nat
      (partial_field (spec_mat_vec 4 sample_inverse sample_pots)
         (replicate 4 (zs [1; 1; 1; 1]%Z)) 4) in
  estimate_pots inv_exact (sample_instance 4)
  = (Ok field, <["estimated_pots" := ANd field]> (sample_instance 4)).
Proof.
  apply (estimate_pots_field inv_exact (sample_instance 4) (identity 4)
           sample_inverse (replicate 4 (zs [1; 1; 1; 1]%Z)) (PFloat 0) 0
           sample_pots (mk_ndarray [2; 2; 2]%nat (replicate 8 0))
           (APos sample_electrodes) 4 2 2 2);
    try reflexivity; repeat constructor.
Defined.

Lemma estimate_csd_field_witness :
  let field :=
    mk_ndarray [2; 2; 1]%nat
      (partial_field (spec_mat_vec 4 sample_inverse sample_pots)
         (replicate 4 (zs [1; 1; 1; 1]%Z)) 4) in
  estimate_csd inv_exact sample_flat_instance
  = (Ok field, <["estimated_csd" := ANd field]> sample_flat_instance).
Proof.
  apply (estimate_csd_field inv_exact sample_flat_instance (identity 4)
           sample_inverse (replicate 4 (zs [1; 1; 1; 1]%Z)) (PFloat 0) 0
           sample_pots (mk_ndarray [2; 2; 1]%nat (replicate 4 0))
           (APos sample_electrodes) 4 2 2 1);
    try reflexivity; repeat constructor.
Defined.

Lemma zero_potentials_zero_field_witness :
  fst (estimate_pots inv_exact sample_silent_instance)
  = Ok (mk_ndarray [2; 2]%nat (replicate 4 0)).
Proof.
  apply (zero_potentials_zero_field inv_exact sample_silent_instance (identity 4)
           sample_inverse (replicate 4 (zs [1; 1; 1; 1]%Z)) (PFloat 0) 0
           (replicate 4 0) (mk_ndarray [2; 2; 2]%nat (replicate 8 0))
           (APos sample_electrodes) 4 2 2 2);
    try reflexivity; repeat constructor.
Defined.

(** ** The weights of the two estimates *)

Section EstimateWeights.

Variable np_linalg_inv : matrix -> result matrix.
Variables (self : obj) (K Tp Tc : matrix) (lv : pyval) (lam : Qc) (y : vec).
Variables (X : ndarray) (elec_pos : attr) (n nx ny nz : nat).

Hypothesis HK : self !! "k_pot" = Some (AMat K).
Hypothesis Hl : self !! "lambd" = Some (AVal lv).
Hypothesis Hlam : py_float lv = Ok lam.
Hypothesis Hy : self !! "sampled_pots" = Some (AVec y).
Hypothesis HX : self !! "space_X" = Some (ANd X).
Hypothesis Hshape : shape X = [nx; ny; nz].
Hypothesis He : self !! "elec_pos" = Some elec_pos.
Hypothesis HN : shape0 elec_pos = Ok n.
Hypothesis HTp : self !! "interp_pot" = Some (AMat Tp).
Hypothesis HTc : self !! "k_interp_cross" = Some (AMat Tc).
Hypothesis HKn : length K = n.
Hypothesis HKrows : Forall (fun row => length row = n) K.
Hypothesis Hyn : length y = n.
Hypothesis Hinv : forall K_inv,
    np_linalg_inv (spec_regularized K lam) = Ok K_inv ->
    length K_inv = n /\ Forall (fun row => length row = n) K_inv.
Hypothesis HTpn : length Tp = (nx * ny)%nat.
Hypothesis HTprows : Forall (fun row => n <= length row)%nat Tp.
Hypothesis HTcn : length Tc = (nx * ny)%nat.
Hypothesis HTcrows : Forall (fun row => n <= length row)%nat Tc.

Lemma inverse_rows : forall K_inv,
    np_linalg_inv (spec_regularized K lam) = Ok K_inv ->
    Forall (fun row => length row = n) K_inv.
Proof using Hinv. intros K_inv H. now destruct (Hinv K_inv H). Qed.

(** C1. On an instance with an [n x n] kernel, [n] sampled potentials
    and tables with a row for each of the [nx*ny] points, both estimates
    weigh their table by [Beta = (K_pot + lam I)^-1 SampledPotentials],
    [I] being the identity of the dimension of [K_pot]: the field
    [estimate_pots] returns and, on a flat grid, the field [estimate_csd]
    returns hold at each point [g] the sum of [Beta[i] * table[g, i]]
    over the electrodes, whatever the tables are; and when the inversion
    of [K_pot + lam I] fails, both raise its exception. *)
Theorem estimates_weigh_by_regularized_solution :
  match spec_solve np_linalg_inv K lam y with
  | Ok Beta =>
      fst (estimate_pots np_linalg_inv self)
      = Ok (mk_ndarray [nx; ny] (partial_field Beta Tp n)) /\
      (nz = 1%nat ->
       fst (estimate_csd np_linalg_inv self)
       = Ok (mk_ndarray [nx; ny; 1%nat] (partial_field Beta Tc n)))
  | Err e =>
      estimate_pots np_linalg_inv self = (Err e, self) /\
      estimate_csd np_linalg_inv self = (Err e, self)
  end.
Proof using All.
  pose proof (estimate_pots_beta_run np_linalg_inv self K lv lam y n
                HK Hl Hlam Hy HKn HKrows Hyn inverse_rows) as Hbp.
  pose proof (estimate_csd_beta_run np_linalg_inv self K lv lam y n
                HK Hl Hlam Hy HKn HKrows Hyn inverse_rows) as Hbc.
  unfold spec_solve in *.
  destruct (np_linalg_inv (spec_regularized K lam)) as [K_inv | e] eqn:Einv.
  - destruct (Hinv K_inv eq_refl) as [Hn Hrows]. rewrite HKn in *. split.
    + unfold estimate_pots.
      rewrite (bind_ok _ _ _ _ _ (getmat_some _ _ _ HTp)).
      rewrite (bind_ok _ _ _ _ _ Hbp).
      rewrite (bind_ok _ _ _ _ _ (getnd_some _ _ _ HX)).
      rewrite Hshape. erewrite (bind_ok (lift _)) by reflexivity. cbn beta iota.
      erewrite (bind_ok (lift _)).
      2: { unfold lift, np_zeros. rewrite decide_False by lia. reflexivity. }
      rewrite (bind_ok _ _ _ _ _ (getattr_some _ _ _ He)).
      erewrite (bind_ok (lift _)) by (unfold lift; now rewrite HN).
      erewrite (bind_ok (lift _)).
      2: { unfold lift. rewrite Nat2Z.id, <- HTpn.
           rewrite <- (partial_field_0 (spec_mat_vec n K_inv y) Tp).
           rewrite for_each_accumulate_partial_field; [reflexivity | |].
           - unfold spec_mat_vec. rewrite length_map. simpl. lia.
           - simpl. exact HTprows. }
      erewrite (bind_ok (lift _)).
      2: { unfold lift, np_reshape. rewrite decide_True; [reflexivity |].
           rewrite partial_field_length, HTpn. simpl. lia. }
      step_setattr.
      erewrite (bind_ok (getnd _)) by (apply getnd_some; apply lookup_insert_eq).
      reflexivity.
    + intros Hnz. unfold estimate_csd.
      rewrite (bind_ok _ _ _ _ _ (getmat_some _ _ _ HTc)).
      rewrite (bind_ok _ _ _ _ _ Hbc).
      rewrite (bind_ok _ _ _ _ _ (getnd_some _ _ _ HX)).
      rewrite Hshape, Hnz. erewrite (bind_ok (lift _)) by reflexivity. cbn beta iota.
      erewrite (bind_ok (lift _)).
      2: { unfold lift, np_zeros. rewrite decide_False by lia. reflexivity. }
      rewrite (bind_ok _ _ _ _ _ (getattr_some _ _ _ He)).
      erewrite (bind_ok (lift _)) by (unfold lift; now rewrite HN).
      erewrite (bind_ok (lift _)).
      2: { unfold lift. rewrite Nat2Z.id, <- HTcn.
           rewrite <- (partial_field_0 (spec_mat_vec n K_inv y) Tc).
           rewrite for_each_accumulate_partial_field; [reflexivity | |].
           - unfold spec_mat_vec. rewrite length_map. simpl. lia.
           - simpl. exact HTcrows. }
      erewrite (bind_ok (lift _)).
      2: { unfold lift, np_reshape. rewrite decide_True; [reflexivity |].
           rewrite partial_field_length, HTcn. simpl. lia. }
      step_setattr.
      erewrite (bind_ok (getnd _)) by (apply getnd_some; apply lookup_insert_eq).
      reflexivity.
  - split.
    + unfold estimate_pots.
      rewrite (bind_ok _ _ _ _ _ (getmat_some _ _ _ HTp)).
      now rewrite (bind_err _ _ _ _ _ Hbp).
    + unfold estimate_csd.
      rewrite (bind_ok _ _ _ _ _ (getmat_some _ _ _ HTc)).
      now rewrite (bind_err _ _ _ _ _ Hbc).
Qed.

End EstimateWeights.

Lemma estimates_weigh_by_regularized_solution_witness :
  result_map fractions (spec_solve inv_exact (identity 4) 1 sample_pots)
  = Ok [(1 # 2)%Q; 1%Q; (3 # 2)%Q; 2%Q] /\
  match spec_solve inv_exact (identity 4) 1 sample_pots with
  | Ok Beta =>
      fst (estimate_pots inv_exact sample_ridge_instance)
      = Ok (mk_ndarray [2; 2]%nat (partial_field Beta (identity 4) 4)) /\
      (1%nat = 1%nat ->
       fst (estimate_csd inv_exact sample_ridge_instance)
       = Ok (mk_ndarray [2; 2; 1]%nat
               (partial_field Beta (np_scale_mat 2 (identity 4)) 4)))
  | Err e =>
      estimate_pots inv_exact sample_ridge_instance = (Err e, sample_ridge_instance) /\
      estimate_csd inv_exact sample_ridge_instance = (Err e, sample_ridge_instance)
  end.
Proof.
  split; [vm_compute; reflexivity |].
  apply (estimates_weigh_by_regularized_solution inv_exact sample_ridge_instance
           (identity 4) (identity 4) (np_scale_mat 2 (identity 4)) (PFloat 1) 1
           sample_pots (mk_ndarray [2; 2; 1]%nat (replicate 4 0))
           (APos sample_electrodes) 4 2 2 1);
    try reflexivity;
    try (intros K_inv H; vm_compute in H; injection H as <-;
         split; [reflexivity |]);
    repeat constructor.
Defined.

(** ** Cross-validation: edges and the returned candidate *)

Lemma np_mask_elem_of {A} (a : list A) (mask : list bool) (x : A) :
  x ∈ np_mask a mask -> x ∈ a.
Proof.
  revert mask. induction a as [| y a IH]; intros [| b mask] Hx; simpl in Hx;
    try (by apply elem_of_nil in Hx).
  destruct b.
  - apply elem_of_cons in Hx as [-> | Hx]; [left | right; eauto].
  - right. eauto.
Qed.

(** Whenever [choose_lambda] returns, it returns one of the candidates it
    was given, whatever [cross_validation] does. *)
Theorem choose_lambda_returns_a_candidate (Env : Type)
  (cross_validation : Env -> Qc -> attr -> attr -> nat -> Z -> cv_outcome Env)
  (lambdas : vec) (n_folds n_iter : Z) (st : Env * obj) (lam : Qc) :
  fst (choose_lambda Env cross_validation lambdas n_folds n_iter st) = Ok lam ->
  lam ∈ lambdas.
Proof.
  destruct (choose_lambda Env cross_validation lambdas n_folds n_iter st)
    as [r st'] eqn:H. simpl. intros ->.
  unfold choose_lambda in H. apply bind_inv in H as (errors & s1 & _ & H).
  apply lift_inv in H as [H _]. unfold select_lambda in H.
  destruct (py_min errors) as [m | e]; simpl in H; [| discriminate].
  unfold np_item in H.
  destruct (np_mask lambdas (map (fun e => f64_eqb e m) errors) !! 0%nat)
    as [x |] eqn:Hx; [| discriminate].
  injection H as <-. eapply np_mask_elem_of. eapply list_elem_of_lookup_2. eauto.
Qed.

Lemma choose_lambda_returns_a_candidate_witness :
  exists lam,
    fst (choose_lambda nat cv_sample default_lambdas 2 3 (O, sample_instance 8))
    = Ok lam /\ lam ∈ default_lambdas.
Proof.
  eexists. split; [vm_compute; reflexivity |].
  apply (choose_lambda_returns_a_candidate nat cv_sample default_lambdas 2 3
           (O, sample_instance 8)).
  vm_compute. reflexivity.
Defined.

(** Without a candidate, or with a negative number of iterations,
    [choose_lambda] raises [ValueError] (from [min] of an empty sequence,
    from [np.zeros] of a negative size) and nothing has changed:
    [cross_validation] was not called. *)
Theorem choose_lambda_ValueError (Env : Type)
  (cross_validation : Env -> Qc -> attr -> attr -> nat -> Z -> cv_outcome Env)
  (lambdas : vec) (n_folds n_iter : Z) (st : Env * obj) :
  lambdas = [] \/ (n_iter < 0)%Z ->
  choose_lambda Env cross_validation lambdas n_folds n_iter st
  = (Err ValueError, st).
Proof.
  intros Hcase. unfold choose_lambda, choose_lambda_errors.
  destruct (decide (n_iter < 0)%Z) as [Hneg | Hpos].
  - unfold bind, lift, np_zeros. now rewrite decide_True.
  - destruct Hcase as [-> | Hneg]; [| done].
    unfold bind, lift, np_zeros. rewrite decide_False by done. reflexivity.
Qed.

Lemma choose_lambda_ValueError_witness :
  ([] = ([] : vec) \/ (1 < 0)%Z) /\
  choose_lambda nat cv_sample [] 2 1 (O, sample_instance 8)
  = (Err ValueError, (O, sample_instance 8)).
Proof.
  assert (H : [] = ([] : vec) \/ (1 < 0)%Z) by (left; reflexivity).
  split; [exact H |].
  exact (choose_lambda_ValueError nat cv_sample [] 2 1 (O, sample_instance 8) H).
Defined.

Lemma py_min_nans (n : nat) : py_min (replicate (S n) NaN) = Ok NaN.
Proof.
  simpl. f_equal. induction n as [| n IH]; simpl; [done | exact IH].
Qed.

Lemma np_mask_nans {A} (a : list A) (n : nat) :
  np_mask a (map (fun e => f64_eqb e NaN) (replicate n NaN)) = [].
Proof.
  revert n. induction a as [| x a IH]; intros [| n]; simpl; auto.
Qed.

Lemma candidates_without_iterations (Env : Type)
  (cross_validation : Env -> Qc -> attr -> attr -> nat -> Z -> cv_outcome Env)
  (ls : vec) (n_folds : Z) (i0 : nat) (errors : list float64) (st : Env * obj) :
  length errors = (i0 + length ls)%nat ->
  candidates Env cross_validation (zip (seq i0 (length ls)) ls) n_folds 0 [] errors st
  = (Ok (take i0 errors ++ replicate (length ls) NaN), st).
Proof.
  revert i0 errors. induction ls as [| l ls IH]; intros i0 errors Hlen; simpl.
  - unfold ret. simpl in Hlen. rewrite take_ge by lia. now rewrite app_nil_r.
  - simpl in Hlen. erewrite (bind_ok (ret _)) by reflexivity.
    erewrite (bind_ok (lift _)).
    2: { unfold lift, np_setitem. rewrite decide_True by lia. reflexivity. }
    rewrite IH by (rewrite length_insert; lia).
    f_equal. f_equal.
    rewrite (take_S_r _ _ NaN) by (apply list_lookup_insert_eq; lia).
    rewrite take_insert, decide_False by lia. now rewrite <- app_assoc.
Qed.

(** With [n_iter = 0] and at least one candidate, no cross-validation
    runs, every mean error is [nan], no candidate matches the minimum and
    [choose_lambda] raises [IndexError], nothing having changed. *)
Theorem choose_lambda_no_iterations (Env : Type)
  (cross_validation : Env -> Qc -> attr -> attr -> nat -> Z -> cv_outcome Env)
  (lambdas : vec) (n_folds : Z) (st : Env * obj) :
  lambdas <> [] ->
  choose_lambda Env cross_validation lambdas n_folds 0 st = (Err IndexError, st).
Proof.
  intros Hne. unfold choose_lambda, choose_lambda_errors.
  erewrite (bind_ok (bind _ _)).
  2: { erewrite (bind_ok (lift _)) by reflexivity.
       apply (candidates_without_iterations Env cross_validation lambdas n_folds 0).
       now rewrite length_replicate. }
  cbn [take app]. unfold lift, select_lambda.
  destruct lambdas as [| l ls]; [done |].
  cbn [length]. rewrite take_0. cbn [app]. rewrite py_min_nans. cbn [rbind].
  now rewrite np_mask_nans.
Qed.

Lemma choose_lambda_no_iterations_witness :
  default_lambdas <> [] /\
  choose_lambda nat cv_sample default_lambdas 2 0 (O, sample_instance 8)
  = (Err IndexError, (O, sample_instance 8)).
Proof.
  assert (H : default_lambdas <> []) by discriminate.
  split; [exact H |].
  exact (choose_lambda_no_iterations nat cv_sample default_lambdas 2
           (O, sample_instance 8) H).
Defined.

(** ** Cross-validation whose error depends on the candidate only *)





Section DeterministicCrossValidation.

Variable Env : Type.
Variable cross_validation : Env -> Qc -> attr -> attr -> nat -> Z -> cv_outcome Env.
Variable g : Qc -> Qc.

(** The error reported for a candidate is a function of the candidate. *)
Hypothesis cv_depends_on_lambd : forall env lambd pots k_pot n n_folds,
    cv_value (cross_validation env lambd pots k_pot n n_folds) = Ok (g lambd).





End DeterministicCrossValidation.


(** ** Grid axes *)

Lemma default_spacing_run (self : obj) (amax amin : string) (hi lo : Qc) :
  self !! amax = Some (AVal (PFloat hi)) ->
  self !! amin = Some (AVal (PFloat lo)) ->
  default_spacing amax amin self
  = (Ok (PFloat (Q2Qc (1 # 100) * (hi - lo))), self).
Proof.
  intros Hhi Hlo. unfold default_spacing.
  rewrite (bind_ok _ _ _ _ _ (getval_some _ _ _ Hhi)).
  rewrite (bind_ok _ _ _ _ _ (getval_some _ _ _ Hlo)).
  erewrite (bind_ok (lift _)) by reflexivity. reflexivity.
Qed.

(** When all electrodes share their x coordinate and no spacing is given,
    the default spacing is zero and line 76 raises: no grid is built on a
    degenerate axis. *)
Theorem degenerate_axis_raises (self : obj) (x : Qc) :
  self !! "xmin" = Some (AVal (PFloat x)) ->
  self !! "xmax" = Some (AVal (PFloat x)) ->
  exists gd : pyval,
    default_spacing "xmax" "xmin" self = (Ok gd, self) /\
    exists e, lin_x_axis (<["gdX" := AVal gd]> self)
              = (Err e, <["gdX" := AVal gd]> self).
Proof.
  intros Hmin Hmax. eexists.
  split; [exact (default_spacing_run self "xmax" "xmin" x x Hmax Hmin) |].
  exists ZeroDivisionError. unfold lin_x_axis, grid_axis.
  erewrite (bind_ok (getval "xmin")); [| apply getval_some; solve_lookup].
  erewrite (bind_ok (getval "xmax")); [| apply getval_some; solve_lookup].
  erewrite (bind_ok (getval "xmax")); [| apply getval_some; solve_lookup].
  erewrite (bind_ok (getval "xmin")); [| apply getval_some; solve_lookup].
  erewrite (bind_ok (lift _)) by reflexivity.
  erewrite (bind_ok (getval "gdX")); [| apply getval_some; solve_lookup].
  erewrite (bind_err (lift _)); [reflexivity |].
  unfold lift, py_div. rewrite decide_True; [reflexivity | ring].
Qed.

Lemma degenerate_axis_raises_witness :
  let self : obj :=
    <["xmin" := AVal (PFloat 1)]> (<["xmax" := AVal (PFloat 1)]> ∅) in
  exists gd : pyval,
    default_spacing "xmax" "xmin" self = (Ok gd, self) /\
    exists e, lin_x_axis (<["gdX" := AVal gd]> self)
              = (Err e, <["gdX" := AVal gd]> self).
Proof.
  intros self. apply (degenerate_axis_raises self 1); reflexivity.
Defined.

Lemma x_axis_ends_at_xmax_witness :
  exists lin_x, fst (lin_x_axis sample_bounds) = Ok lin_x /\
                list.head lin_x = Some 0 /\ list.last lin_x = Some 1.
Proof.
  apply (x_axis_ends_at_xmax sample_bounds 0 1 (Q2Qc (1 # 2)));
    try reflexivity.
  - intros H. apply (f_equal this) in H. discriminate H.
  - vm_compute. discriminate.
Defined.

(** ** The grid arrays *)

Lemma grid_axis_readonly lo hi emax emin gd : readonly (grid_axis lo hi emax emin gd).
Proof. unfold grid_axis. auto 20 with frame. Qed.

Lemma flat_map_length_const {A B} (f : A -> list B) (l : list A) (c : nat) :
  (forall x, length (f x) = c) -> length (flat_map f l) = (length l * c)%nat.
Proof.
  intros Hf. induction l as [| x l IH]; simpl; [done |].
  rewrite length_app, Hf, IH. lia.
Qed.

Lemma Forall_flat_map_intro {A B} (P : B -> Prop) (f : A -> list B) (l : list A) :
  (forall x, x ∈ l -> Forall P (f x)) -> Forall P (flat_map f l).
Proof.
  intros Hf. induction l as [| x l IH]; simpl; [constructor |].
  apply Forall_app. split; [apply Hf; left | apply IH]. intros y Hy. apply Hf. by right.
Qed.

Lemma meshgrid_lengths (lin_x lin_y lin_z : vec) :
  let '(X, Y, Z) := meshgrid lin_x lin_y lin_z in
  length (data X) = (length lin_y * length lin_x * length lin_z)%nat /\
  length (data Y) = (length lin_y * length lin_x * length lin_z)%nat /\
  length (data Z) = (length lin_y * length lin_x * length lin_z)%nat.
Proof.
  simpl. repeat split.
  - rewrite (flat_map_length_const _ _ (length lin_x * length lin_z)); [lia |].
    intros y. apply flat_map_length_const. intros x. apply length_map.
  - rewrite (flat_map_length_const _ _ (length lin_x * length lin_z)); [lia |].
    intros y. apply flat_map_length_const. intros x. apply length_map.
  - rewrite (flat_map_length_const _ _ (length lin_x * length lin_z)); [lia |].
    intros y. now apply flat_map_length_const.
Qed.

Lemma meshgrid_points (lin_x lin_y lin_z : vec) :
  let '(X, Y, Z) := meshgrid lin_x lin_y lin_z in
  Forall (fun x => x ∈ lin_x) (data X) /\
  Forall (fun y => y ∈ lin_y) (data Y) /\
  Forall (fun z => z ∈ lin_z) (data Z).
Proof.
  simpl. repeat split.
  - apply Forall_flat_map_intro. intros y Hy.
    apply Forall_flat_map_intro. intros x Hx.
    apply List.Forall_forall. intros x' Hin. apply in_map_iff in Hin as (w & <- & _).
    done.
  - apply Forall_flat_map_intro. intros y Hy.
    apply Forall_flat_map_intro. intros x Hx.
    apply List.Forall_forall. intros y' Hin. apply in_map_iff in Hin as (w & <- & _).
    done.
  - apply Forall_flat_map_intro. intros y Hy.
    apply Forall_flat_map_intro. intros x Hx.
    apply List.Forall_forall. intros z Hz. now apply list_elem_of_In.
Qed.

(** When the grid block of lines 76 to 79 returns, the three arrays
    [space_X], [space_Y], [space_Z] are the only attributes it has set;
    they share the shape (number of y points, number of x points, number
    of z points), in this order, hold one value per grid point, and every
    x, y, z coordinate in them is a point of the corresponding axis. *)
Theorem build_grid_arrays (self self' : obj) :
  build_grid self = (Ok tt, self') ->
  exists (lin_x lin_y lin_z : vec) (X Y Zg : ndarray),
    fst (lin_x_axis self) = Ok lin_x /\
    fst (lin_y_axis self) = Ok lin_y /\
    fst (lin_z_axis self) = Ok lin_z /\
    self' = <["space_Z" := ANd Zg]> (<["space_Y" := ANd Y]>
              (<["space_X" := ANd X]> self)) /\
    shape X = [length lin_y; length lin_x; length lin_z] /\
    shape Y = shape X /\ shape Zg = shape X /\
    length (data X) = (length lin_y * length lin_x * length lin_z)%nat /\
    length (data Y) = length (data X) /\ length (data Zg) = length (data X) /\
    Forall (fun x => x ∈ lin_x) (data X) /\
    Forall (fun y => y ∈ lin_y) (data Y) /\
    Forall (fun z => z ∈ lin_z) (data Zg).
Proof.
  unfold build_grid. intros H.
  apply bind_inv in H as (lin_x & s1 & Hx & H).
  pose proof (readonly_run _ _ _ _ (grid_axis_readonly _ _ _ _ _) Hx) as ->.
  apply bind_inv in H as (lin_y & s1 & Hy & H).
  pose proof (readonly_run _ _ _ _ (grid_axis_readonly _ _ _ _ _) Hy) as ->.
  apply bind_inv in H as (lin_z & s1 & Hz & H).
  pose proof (readonly_run _ _ _ _ (grid_axis_readonly _ _ _ _ _) Hz) as ->.
  pose proof (meshgrid_lengths lin_x lin_y lin_z) as Hlen.
  pose proof (meshgrid_points lin_x lin_y lin_z) as Hpts.
  destruct (meshgrid lin_x lin_y lin_z) as [[X Y] Zg] eqn:Hmesh.
  destruct Hlen as (HlX & HlY & HlZ). destruct Hpts as (HpX & HpY & HpZ).
  exists lin_x, lin_y, lin_z, X, Y, Zg.
  rewrite Hx, Hy, Hz. repeat split; try done.
  - do 2 (erewrite (bind_ok (setattr _ _)) in H by reflexivity).
    unfold setattr in H. now injection H as <-.
  - unfold meshgrid in Hmesh. now injection Hmesh as <- _ _.
  - unfold meshgrid in Hmesh. now injection Hmesh as <- <- _.
  - unfold meshgrid in Hmesh. now injection Hmesh as <- _ <-.
  - congruence.
  - congruence.
Qed.

Lemma build_grid_arrays_witness :
  exists (lin_x lin_y lin_z : vec) (X Y Zg : ndarray),
    fst (lin_x_axis sample_bounds) = Ok lin_x /\
    fst (lin_y_axis sample_bounds) = Ok lin_y /\
    fst (lin_z_axis sample_bounds) = Ok lin_z /\
    snd (build_grid sample_bounds)
    = <["space_Z" := ANd Zg]> (<["space_Y" := ANd Y]>
        (<["space_X" := ANd X]> sample_bounds)) /\
    shape X = [length lin_y; length lin_x; length lin_z] /\
    shape Y = shape X /\ shape Zg = shape X /\
    length (data X) = (length lin_y * length lin_x * length lin_z)%nat /\
    length (data Y) = length (data X) /\ length (data Zg) = length (data X) /\
    Forall (fun x => x ∈ lin_x) (data X) /\
    Forall (fun y => y ∈ lin_y) (data Y) /\
    Forall (fun z => z ∈ lin_z) (data Zg).
Proof.
  apply (build_grid_arrays sample_bounds (snd (build_grid sample_bounds))).
  vm_compute. reflexivity.
Defined.

(** ** Text of an instance *)

Lemma string_append_assoc (a b c : string) :
  String.append (String.append a b) c = String.append a (String.append b c).
Proof.
  induction a as [| ch a IH]; [reflexivity |].
  change (String ch (String.append (String.append a b) c)
          = String ch (String.append a (String.append b c))).
  now rewrite IH.
Qed.

Lemma string_append_nil_r (a : string) : String.append a EmptyString = a.
Proof.
  induction a as [| ch a IH]; [reflexivity |].
  change (String ch (String.append a EmptyString) = String ch a).
  now rewrite IH.
Qed.

Section ReprProperties.

Variable py_str : attr -> string.
Variable dict_keys : obj -> list string.

Lemma repr_loop_text (keys : list string) (self : obj) (info : string) :
  (forall key, key ∈ keys -> is_Some (self !! key)) ->
  exists text,
    repr_loop py_str keys self info = Ok (String.append info text) /\
    forall key v, key ∈ keys -> startswith_underscore key = false ->
                  self !! key = Some v ->
                  exists before after,
                    text = String.append before
                             (String.append (repr_line py_str key v) after).
Proof.
  revert info. induction keys as [| k keys IH]; intros info Hkeys.
  - exists EmptyString. split; [simpl; now rewrite string_append_nil_r |].
    intros key v Hin. by apply elem_of_nil in Hin.
  - assert (Hrest : forall key, key ∈ keys -> is_Some (self !! key)).
    { intros key Hin. apply Hkeys. by right. }
    simpl. destruct (startswith_underscore k) eqn:Hk.
    + destruct (IH info Hrest) as (text & Hrun & Hshown).
      exists text. split; [done |].
      intros key v Hin Hpub Hv. apply elem_of_cons in Hin as [-> | Hin];
        [congruence | eauto].
    + destruct (Hkeys k) as [vk Hvk]; [left |]. rewrite Hvk.
      destruct (IH (String.append info (repr_line py_str k vk)) Hrest)
        as (text & Hrun & Hshown).
      exists (String.append (repr_line py_str k vk) text). split.
      * now rewrite Hrun, string_append_assoc.
      * intros key v Hin Hpub Hv. apply elem_of_cons in Hin as [-> | Hin].
        -- assert (v = vk) as -> by congruence.
           exists EmptyString, text. reflexivity.
        -- destruct (Hshown key v Hin Hpub Hv) as (before & after & ->).
           exists (String.append (repr_line py_str k vk) before), after.
           now rewrite string_append_assoc.
Qed.

(** [__repr__] returns a text that starts with the class name and holds,
    for every attribute whose name does not start with an underscore, the
    line ["name : value\n"], whatever the order of the dictionary. *)
Theorem repr_shows_public_attributes (self : obj) :
  (forall key, key ∈ dict_keys self <-> is_Some (self !! key)) ->
  exists text,
    __repr__ py_str dict_keys self = Ok (String.append "KCSD3D" text) /\
    forall key v, self !! key = Some v -> startswith_underscore key = false ->
                  exists before after,
                    text = String.append before
                             (String.append (repr_line py_str key v) after).
Proof using Type.
  intros Hkeys. unfold __repr__.
  destruct (repr_loop_text (dict_keys self) self "KCSD3D") as (text & Hrun & Hshown).
  { intros key Hin. now apply Hkeys. }
  exists text. split; [done |].
  intros key v Hv Hpub. apply Hshown; [| done | done].
  apply Hkeys. eauto.
Qed.

Lemma repr_loop_private (keys : list string) (self : obj) (info : string) :
  (forall key, key ∈ keys -> startswith_underscore key = true) ->
  repr_loop py_str keys self info = Ok info.
Proof.
  induction keys as [| k keys IH]; intros Hkeys; simpl; [done |].
  rewrite (Hkeys k) by left. apply IH. intros key Hin. apply Hkeys. by right.
Qed.

(** Attributes whose names start with an underscore (the mangled
    [__dist_table_density] is one) are left out: an instance that has
    only such attributes prints as the bare class name. *)
Theorem repr_hides_private_attributes (self : obj) :
  (forall key, key ∈ dict_keys self -> startswith_underscore key = true) ->
  __repr__ py_str dict_keys self = Ok "KCSD3D".
Proof using Type.
  intros Hkeys. unfold __repr__. now apply repr_loop_private.
Qed.

End ReprProperties.

Lemma sample_dict_keys_spec (self : obj) (key : string) :
  key ∈ sample_dict_keys self <-> is_Some (self !! key).
Proof.
  unfold sample_dict_keys. rewrite map_fmap, list_elem_of_fmap. split.
  - intros ([k v] & -> & Hin). apply elem_of_map_to_list in Hin. simpl. eauto.
  - intros [v Hv]. exists (key, v). split; [done |].
    now apply elem_of_map_to_list.
Qed.

Lemma repr_shows_public_attributes_witness :
  let self : obj := <["source_type" := AVal (PStr "step")]> ∅ in
  exists text,
    __repr__ sample_py_str sample_dict_keys self = Ok (String.append "KCSD3D" text) /\
    forall key v, self !! key = Some v -> startswith_underscore key = false ->
                  exists before after,
                    text = String.append before
                             (String.append (repr_line sample_py_str key v) after).
Proof.
  intros self.
  apply (repr_shows_public_attributes sample_py_str sample_dict_keys self).
  intros key. apply sample_dict_keys_spec.
Defined.

Lemma repr_hides_private_attributes_witness :
  let self : obj := <["_KCSD3D__dist_table_density" := AVal (PInt 100)]> ∅ in
  __repr__ sample_py_str sample_dict_keys self = Ok "KCSD3D".
Proof.
  intros self.
  apply (repr_hides_private_attributes sample_py_str sample_dict_keys self).
  intros key Hin. apply sample_dict_keys_spec in Hin as [v Hv].
  unfold self in Hv. apply lookup_insert_Some in Hv as [[<- _] | [_ Hv]];
    [reflexivity | done].
Defined.

(** ** The estimates do not read each other's output *)

Lemma ignores_ret name {A} (a : A) : ignores name (ret a).
Proof. now intros self v. Qed.

Lemma ignores_lift name {A} (r : result A) : ignores name (lift r).
Proof. now intros self v. Qed.

Lemma ignores_getattr name n : n <> name -> ignores name (getattr n).
Proof.
  intros Hne self v. unfold getattr. rewrite lookup_insert_ne by done.
  now destruct (self !! n).
Qed.

Lemma ignores_bind name {A B} (m : M obj A) (k : A -> M obj B) :
  readonly m -> ignores name m -> (forall a, ignores name (k a)) ->
  ignores name (bind m k).
Proof.
  intros Hro Hm Hk self v. unfold bind.
  pose proof (Hro self) as H1. pose proof (Hro (<[name := v]> self)) as H2.
  specialize (Hm self v).
  destruct (m self) as [r1 s1], (m (<[name := v]> self)) as [r2 s2].
  simpl in *. subst. destruct r1; [apply Hk | done].
Qed.

Lemma ignores_store name n (r : ndarray) :
  ignores name (bind (setattr n (ANd r)) (fun _ => bind (getnd n) (fun a => ret a))).
Proof.
  intros self v.
  erewrite !(bind_ok (setattr _ _)) by reflexivity.
  now rewrite !(bind_ok _ _ _ _ _ (getnd_some _ r _ (lookup_insert_eq _ _ _))).
Qed.

#[local] Hint Resolve ignores_ret ignores_lift ignores_store : frame.
#[local] Hint Extern 1 (ignores _ (getattr _)) =>
  apply ignores_getattr; discriminate : frame.

Ltac step_ignores :=
  apply ignores_bind;
  [ first [ apply estimate_pots_beta_readonly
          | apply estimate_csd_beta_readonly
          | auto with frame ]
  | | intros ? ].

Lemma getter_ignores name n {A} (f : attr -> result A) :
  n <> name -> ignores name (bind (getattr n) (fun a => lift (f a))).
Proof.
  intros Hne. apply ignores_bind; auto with frame. now apply ignores_getattr.
Qed.

Lemma estimate_pots_beta_ignores inv name :
  name <> "k_pot" -> name <> "lambd" -> name <> "sampled_pots" ->
  ignores name (estimate_pots_beta inv).
Proof.
  intros H1 H2 H3. unfold estimate_pots_beta, getmat, getfloat, getval, getvec.
  step_ignores; [now apply getter_ignores |].
  step_ignores.
  { apply ignores_bind; auto with frame. now apply getter_ignores. }
  step_ignores; [now apply ignores_getattr |].
  step_ignores; [auto with frame |].
  step_ignores; [auto with frame |].
  step_ignores; [auto with frame |].
  step_ignores; [now apply getter_ignores | auto with frame].
Qed.

Lemma estimate_csd_beta_ignores inv name :
  name <> "k_pot" -> name <> "lambd" -> name <> "sampled_pots" ->
  ignores name (estimate_csd_beta inv).
Proof.
  intros H1 H2 H3. unfold estimate_csd_beta, getmat, getfloat, getval, getvec.
  step_ignores; [now apply getter_ignores |].
  step_ignores.
  { apply ignores_bind; auto with frame. now apply getter_ignores. }
  step_ignores; [now apply ignores_getattr |].
  step_ignores; [auto with frame |].
  step_ignores; [auto with frame |].
  step_ignores; [auto with frame |].
  step_ignores; [now apply getter_ignores | auto with frame].
Qed.

Lemma estimate_pots_ignores inv name :
  name <> "interp_pot" -> name <> "k_pot" -> name <> "lambd" ->
  name <> "sampled_pots" -> name <> "space_X" -> name <> "elec_pos" ->
  ignores name (estimate_pots inv).
Proof.
  intros H1 H2 H3 H4 H5 H6. unfold estimate_pots.
  step_ignores; [unfold getmat; now apply getter_ignores |].
  step_ignores; [now apply estimate_pots_beta_ignores |].
  step_ignores; [unfold getnd; now apply getter_ignores |].
  step_ignores; [auto with frame |].
  match goal with d : (nat * nat * nat)%type |- _ => destruct d as [[nx ny] nz] end.
  step_ignores; [auto with frame |].
  step_ignores; [now apply ignores_getattr |].
  step_ignores; [auto with frame |].
  step_ignores; [auto with frame |].
  step_ignores; [auto with frame |].
  apply ignores_store.
Qed.

Lemma estimate_csd_ignores inv name :
  name <> "k_interp_cross" -> name <> "k_pot" -> name <> "lambd" ->
  name <> "sampled_pots" -> name <> "space_X" -> name <> "elec_pos" ->
  ignores name (estimate_csd inv).
Proof.
  intros H1 H2 H3 H4 H5 H6. unfold estimate_csd.
  step_ignores; [unfold getmat; now apply getter_ignores |].
  step_ignores; [now apply estimate_csd_beta_ignores |].
  step_ignores; [unfold getnd; now apply getter_ignores |].
  step_ignores; [auto with frame |].
  match goal with d : (nat * nat * nat)%type |- _ => destruct d as [[nx ny] nz] end.
  step_ignores; [auto with frame |].
  step_ignores; [now apply ignores_getattr |].
  step_ignores; [auto with frame |].
  step_ignores; [auto with frame |].
  step_ignores; [auto with frame |].
  apply ignores_store.
Qed.

(** Neither estimate reads a stored estimate: calling [estimate_pots]
    first does not change what [estimate_csd] returns, nor the other way
    round, and a second call of [estimate_pots] returns what the first
    did. *)
Theorem estimates_do_not_interfere (np_linalg_inv : matrix -> result matrix)
  (self : obj) :
  fst (estimate_csd np_linalg_inv (snd (estimate_pots np_linalg_inv self)))
  = fst (estimate_csd np_linalg_inv self) /\
  fst (estimate_pots np_linalg_inv (snd (estimate_csd np_linalg_inv self)))
  = fst (estimate_pots np_linalg_inv self) /\
  fst (estimate_pots np_linalg_inv (snd (estimate_pots np_linalg_inv self)))
  = fst (estimate_pots np_linalg_inv self).
Proof.
  assert (H1 : forall v, fst (estimate_csd np_linalg_inv (<["estimated_pots" := v]> self))
                         = fst (estimate_csd np_linalg_inv self))
    by (intros v; apply estimate_csd_ignores; discriminate).
  assert (H2 : forall v, fst (estimate_pots np_linalg_inv (<["estimated_csd" := v]> self))
                         = fst (estimate_pots np_linalg_inv self))
    by (intros v; apply estimate_pots_ignores; discriminate).
  assert (H3 : forall v, fst (estimate_pots np_linalg_inv (<["estimated_pots" := v]> self))
                         = fst (estimate_pots np_linalg_inv self))
    by (intros v; apply estimate_pots_ignores; discriminate).
  pose proof (estimate_pots_stores np_linalg_inv self) as Hp.
  pose proof (estimate_csd_stores np_linalg_inv self) as Hc.
  unfold stores_result in Hp, Hc.
  destruct (estimate_pots np_linalg_inv self) as [[a | e] sp] eqn:Ep;
    destruct (estimate_csd np_linalg_inv self) as [[c | e'] sc] eqn:Ec;
    cbn [fst snd]; subst sp sc;
    rewrite ?H1, ?H2, ?H3, ?Ep, ?Ec; done.
Qed.
